(** * redux-multiplayer: the server core and its UUIDv7 codec

    A shallow embedding of [src/sha256.ts], [src/sharedUUIDv7.ts] and
    [src/server.ts], followed by the properties of the specification that
    concern them.

    Conventions of the embedding.
    - A [Uint8Array] is a [list Z] whose elements lie in [0, 256); a store
      [a[i] = v] wraps [v] modulo 256 and is dropped when [i] is out of
      range, a load out of range yields [undefined], which every bit
      operation of the source reads as 0.
    - A JavaScript string is a [string]; its code units are the characters'
      codes (the embedding is restricted to code units below 256, which
      covers every UUID string and every message text of the source).
    - An integral JavaScript number is a [Z]. A 32-bit word of the hash is
      kept as its unsigned residue modulo 2^32: the source holds the same
      residue as a signed int32 or as an exact double, and only ever reads
      it back through an operation that reduces modulo 2^32.
    - An object the server shares by reference (a client context, a
      promise of [pendings]) is an identity into a finite map of such
      objects; what is sent is recorded with the client whose
      [sendToClient] was called.
    - The clock, the [uuid] package, the signing service and the user's
      callbacks are inputs of the functions that use them; the redux store
      is its state, moved by the reducer.
    - An [async] function is cut at its [await]s into the steps of a state
      machine.

    Left out: the worker that runs the tasks of [scheduledQueue], the
    socket handlers and the buffer of [connect], [list()], the wire
    encoding and the key pair. *)

From Stdlib Require Import ZArith List String Ascii Bool Lia.
From stdpp Require Import base list strings gmap.

Local Open Scope string_scope.
Local Open Scope Z_scope.

(** ** Numbers and typed arrays *)

Module Num.

(** [ToUint8]: what a store into a [Uint8Array] keeps. *)
Definition u8 (x : Z) : Z := x mod 256.

(** [x & 0xffffffff] and a store into a [Uint32Array], as a residue. *)
Definition u32 (x : Z) : Z := x mod 2 ^ 32.

(** [a[i]] read through a bit operation: [undefined] counts as 0. *)
Definition load (a : list Z) (i : nat) : Z := default 0 (a !! i).

(** [a[i] = v] on a [Uint8Array]. *)
Definition store (a : list Z) (i : nat) (v : Z) : list Z := <[i := u8 v]> a.

Definition is_bytes (a : list Z) : Prop := Forall (fun b => 0 <= b < 256) a.

(** An array that holds a nibble in every byte. *)
Definition nibbles (b : list Z) : Prop := Forall (fun x => 0 <= x < 16) b.

End Num.

(** ** [src/sha256.ts] *)

Module Sha256.
Import Num.

Definition K : list Z :=
  concat
    [ [ 0x428a2f98; 0x71374491; 0xb5c0fbcf; 0xe9b5dba5; 0x3956c25b; 0x59f111f1 ];
      [ 0x923f82a4; 0xab1c5ed5; 0xd807aa98; 0x12835b01; 0x243185be; 0x550c7dc3 ];
      [ 0x72be5d74; 0x80deb1fe; 0x9bdc06a7; 0xc19bf174; 0xe49b69c1; 0xefbe4786 ];
      [ 0x0fc19dc6; 0x240ca1cc; 0x2de92c6f; 0x4a7484aa; 0x5cb0a9dc; 0x76f988da ];
      [ 0x983e5152; 0xa831c66d; 0xb00327c8; 0xbf597fc7; 0xc6e00bf3; 0xd5a79147 ];
      [ 0x06ca6351; 0x14292967; 0x27b70a85; 0x2e1b2138; 0x4d2c6dfc; 0x53380d13 ];
      [ 0x650a7354; 0x766a0abb; 0x81c2c92e; 0x92722c85; 0xa2bfe8a1; 0xa81a664b ];
      [ 0xc24b8b70; 0xc76c51a3; 0xd192e819; 0xd6990624; 0xf40e3585; 0x106aa070 ];
      [ 0x19a4c116; 0x1e376c08; 0x2748774c; 0x34b0bcb5; 0x391c0cb3; 0x4ed8aa4a ];
      [ 0x5b9cca4f; 0x682e6ff3; 0x748f82ee; 0x78a5636f; 0x84c87814; 0x8cc70208 ];
      [ 0x90befffa; 0xa4506ceb; 0xbef9a3f7; 0xc67178f2 ] ].

(** [(x >>> n) | (x << (32 - n))] *)
Definition ROTR (n x : Z) : Z :=
  u32 (Z.lor (Z.shiftr (u32 x) n) (Z.shiftl (u32 x) (32 - n))).

(** [x >>> n] *)
Definition SHR (n x : Z) : Z := Z.shiftr (u32 x) n.

Definition Sigma0 (x : Z) : Z :=
  Z.lxor (Z.lxor (ROTR 2 x) (ROTR 13 x)) (ROTR 22 x).
Definition Sigma1 (x : Z) : Z :=
  Z.lxor (Z.lxor (ROTR 6 x) (ROTR 11 x)) (ROTR 25 x).
Definition sigma0 (x : Z) : Z :=
  Z.lxor (Z.lxor (ROTR 7 x) (ROTR 18 x)) (SHR 3 x).
Definition sigma1 (x : Z) : Z :=
  Z.lxor (Z.lxor (ROTR 17 x) (ROTR 19 x)) (SHR 10 x).
Definition Ch (x y z : Z) : Z :=
  u32 (Z.lxor (Z.land x y) (Z.land (Z.lnot x) z)).
Definition Maj (x y z : Z) : Z :=
  Z.lxor (Z.lxor (Z.land x y) (Z.land x z)) (Z.land y z).

Definition readWithTrailingBit (data : list Z) (idx : nat) : Z :=
  if (idx <? length data)%nat then load data idx
  else if (idx =? length data)%nat then 0x80
  else 0.

(** The number [N] of 16-word blocks: [Math.ceil(((len + 1) / 4 + 2) / 16)].
    Both divisions are by powers of two, hence exact, and the quotient is
    [(len + 9) / 64]. *)
Definition blockCount (data : list Z) : nat :=
  Z.to_nat ((Z.of_nat (length data) + 9 + 63) / 64).

(** [M[i][j]] once the length words have been written into the last
    block. *)
Definition M (data : list Z) (i j : nat) : Z :=
  let len8 := Z.of_nat (length data) * 8 in
  if ((S i =? blockCount data) && (j =? 14))%nat then len8 / 2 ^ 32
  else if ((S i =? blockCount data) && (j =? 15))%nat then u32 len8
  else
    let at_ k := readWithTrailingBit data (i * 64 + j * 4 + k) in
    u32 (Z.lor (Z.lor (Z.lor (Z.shiftl (at_ 0%nat) 24)
                             (Z.shiftl (at_ 1%nat) 16))
                      (Z.shiftl (at_ 2%nat) 8))
               (at_ 3%nat)).

(** The message schedule, newest word first: [rw] holds
    [W[t-1]; W[t-2]; ...]. *)
Definition scheduleStep (rw : list Z) : list Z :=
  u32 (sigma1 (load rw 1) + load rw 6 + sigma0 (load rw 14) + load rw 15)
    :: rw.

Definition schedule (data : list Z) (i : nat) : list Z :=
  let w16 := map (M data i) (seq 0 16) in
  rev (Nat.iter 48 scheduleStep (rev w16)).

Record Work := mkWork { wa : Z; wb : Z; wc : Z; wd : Z;
                        we : Z; wf : Z; wg : Z; wh : Z }.

Definition round (v : Work) (kw : Z * Z) : Work :=
  let T1 := wh v + Sigma1 (we v) + Ch (we v) (wf v) (wg v) + kw.1 + kw.2 in
  let T2 := Sigma0 (wa v) + Maj (wa v) (wb v) (wc v) in
  {| wh := wg v; wg := wf v; wf := we v; we := u32 (wd v + T1);
     wd := wc v; wc := wb v; wb := wa v; wa := u32 (T1 + T2) |}.

Definition compress (data : list Z) (H : Work) (i : nat) : Work :=
  let v := fold_left round (combine K (schedule data i)) H in
  {| wa := u32 (wa H + wa v); wb := u32 (wb H + wb v);
     wc := u32 (wc H + wc v); wd := u32 (wd H + wd v);
     we := u32 (we H + we v); wf := u32 (wf H + wf v);
     wg := u32 (wg H + wg v); wh := u32 (wh H + wh v) |}.

Definition H0 : Work :=
  {| wa := 0x6a09e667; wb := 0xbb67ae85; wc := 0x3c6ef372; wd := 0xa54ff53a;
     we := 0x510e527f; wf := 0x9b05688c; wg := 0x1f83d9ab; wh := 0x5be0cd19 |}.

(** [outHash[i*4+k] = H[i] >> (24 - 8k)], stored as a byte. *)
Definition wordBytes (h : Z) : list Z :=
  [ u8 (Z.shiftr h 24); u8 (Z.shiftr h 16); u8 (Z.shiftr h 8); u8 h ].

Definition sha256 (data : list Z) : list Z :=
  let H := fold_left (compress data) (seq 0 (blockCount data)) H0 in
  flat_map wordBytes
    [ wa H; wb H; wc H; wd H; we H; wf H; wg H; wh H ].

End Sha256.

(** ** [src/sharedUUIDv7.ts] *)

Module UUIDv7.
Import Num.

Record SerializedGenerationParams := mkParams {
  initBytesBase64 : string;
  signatureBase64 : string
}.

(** [pubKey] is optional in the source and never assigned; it is left
    out. *)
Record UUIDGeneratorState := mkGen {
  notBefore : Z;
  lastGenTS : Z;
  lastGenSeq : Z;
  seed : list Z;
  privKey : string
}.

(** The loop of [signedInfoToUuid7GenParams] over the first six bytes:
    [notBefore = notBefore * 256 + seed[i]; seed[i] = 0]. *)
Fixpoint readNotBefore (n : nat) (i : nat) (acc : Z) (seed : list Z)
  : Z * list Z :=
  match n with
  | O => (acc, seed)
  | S n' => readNotBefore n' (S i) (acc * 256 + load seed i) (store seed i 0)
  end.

(** [initBytes] is [atob(obj.initBytesBase64)] read as bytes; the decoder
    belongs to the platform. The bundles of the server hold 80 bytes; on
    fewer than six the source's sum runs into [undefined] and yields
    [NaN], which the integral numbers of the embedding do not cover. *)
Definition signedInfoToUuid7GenParams
    (atob : string -> list Z) (obj : SerializedGenerationParams)
  : UUIDGeneratorState :=
  let '(nb, seed') := readNotBefore 6 0 0 (atob (initBytesBase64 obj)) in
  {| notBefore := nb; lastGenTS := nb; lastGenSeq := 0; seed := seed';
     privKey := signatureBase64 obj |}.

(** [255 & (ts / Math.pow(256, 5 - i))]: the division by a power of two
    is exact, [&] truncates its operand towards zero and reduces it
    modulo 2^32. *)
Definition tsByte (ts : Z) (i : nat) : Z :=
  Z.land 255 (Z.quot ts (256 ^ Z.of_nat (5 - i))).

(** [for (i = 0; i < 6; i++) a[i] = 255 & (ts / 256^(5-i))] *)
Definition writeTimestamp (ts : Z) (a : list Z) : list Z :=
  fold_left (fun acc i => store acc i (tsByte ts i)) (seq 0 6) a.

(** The fire-and-forget branch ([ts === undefined]): the clock is read
    and the generator state advanced. Returns the timestamp and the
    state; the sequence number is the state's [lastGenSeq]. *)
Definition nextTimestamp (now : Z) (gp : UUIDGeneratorState)
  : Z * UUIDGeneratorState :=
  let ts := if now <? lastGenTS gp then lastGenTS gp else now in
  if ts =? lastGenTS gp then
    let s := lastGenSeq gp + 1 in
    if 16 * 256 <=? s then
      (ts + 1,
       {| notBefore := notBefore gp; lastGenTS := ts + 1; lastGenSeq := 0;
          seed := seed gp; privKey := privKey gp |})
    else
      (ts,
       {| notBefore := notBefore gp; lastGenTS := lastGenTS gp;
          lastGenSeq := s; seed := seed gp; privKey := privKey gp |})
  else
    (ts,
     {| notBefore := notBefore gp; lastGenTS := lastGenTS gp;
        lastGenSeq := 0; seed := seed gp; privKey := privKey gp |}).

(** Everything after the choice of [ts] and [seq]. *)
Definition buildUUID (seed : list Z) (ts seq : Z) : list Z :=
  let seedBytes := writeTimestamp ts seed in
  let seedBytes := store seedBytes 6 (Z.land (Z.shiftr seq 8) 0xff) in
  let seedBytes := store seedBytes 7 (Z.land seq 0xff) in
  let digested := Sha256.sha256 seedBytes in
  let uuid := take 16 digested in
  let uuid := writeTimestamp ts uuid in
  let uuid := store uuid 6 (Z.lor 0x70 (Z.land (Z.shiftr seq 8) 0xf)) in
  let uuid := store uuid 7 (Z.land seq 0xff) in
  store uuid 8 (Z.lor 0x80 (Z.land (load uuid 8) 0x3f)).

(** [newUUIDv7Bytes(gp, ts?, seq?)]: the bytes and the generator state
    the call leaves behind. [now] is [Date.now()]; a supplied [ts] is
    integral, so [Math.floor] keeps it. *)
Definition newUUIDv7Bytes (now : Z) (gp : UUIDGeneratorState)
    (ts seq : option Z) : list Z * UUIDGeneratorState :=
  match ts with
  | None =>
      let '(ts', gp') := nextTimestamp now gp in
      (buildUUID (seed gp) ts' (lastGenSeq gp'), gp')
  | Some ts' => (buildUUID (seed gp) ts' (default 0 seq), gp)
  end.

Definition isUUIDv7 (uuid : list Z) : bool :=
  (length uuid =? 16)%nat
  && (Z.land (load uuid 6) 0xf0 =? 0x70)
  && (Z.land (load uuid 8) 0xc0 =? 0x80).

(** On an array of at least six bytes, which is what the server passes;
    on a shorter one the source's sum yields [NaN]. *)
Definition getUUIDv7Timestamp (uuid : list Z) : Z :=
  fold_left (fun timeStamp i => timeStamp * 256 + load uuid i) (seq 0 6) 0.

Definition getUUIDv7SeqNo (uuid : list Z) : Z :=
  Z.shiftl (Z.land (load uuid 6) 0xf) 8 + Z.land (load uuid 7) 0xff.

(** [n.toString(16)] for the nibbles [0..15] the source applies it to:
    one character. *)
Definition hexChar (n : Z) : ascii :=
  match String.get (Z.to_nat n) "0123456789abcdef" with
  | Some c => c
  | None => "0"%char
  end.

Definition hexDigit (n : Z) : string := String (hexChar n) EmptyString.

Definition uuidBytesToString (bytes : list Z) : string :=
  String.concat ""
    (flat_map
       (fun i =>
          app
            (if (i =? 4)%nat || (i =? 6)%nat || (i =? 8)%nat || (i =? 10)%nat
             then ["-"] else [])
            [hexDigit (Z.shiftr (load bytes i) 4);
             hexDigit (Z.land (load bytes i) 0xf)])
       (seq 0 16)).

Definition dashCode : Z := 45.

(** [str.charCodeAt(i)]; [None] is [NaN], past the end of the string. *)
Definition charCodeAt (str : string) (i : nat) : option Z :=
  (fun c => Z.of_nat (nat_of_ascii c)) <$> String.get i str.

Definition hexAsciiToBits (ascii : option Z) : Z :=
  match ascii with
  | None => -1
  | Some ascii =>
      if (48 <=? ascii) && (ascii <=? 57) then ascii - 48
      else if (97 <=? ascii) && (ascii <=? 102) then ascii - 97 + 10
      else if (65 <=? ascii) && (ascii <=? 70) then ascii - 65 + 10
      else -1
  end.

(** How the [while] loop of one pass ends. *)
Inductive LoopEnd :=
| ReturnNull
| Exit (iidx oidx : nat) (obuf : option (list Z))
| OutOfFuel.

(** [while (iidx < 36 && oidx < 16) { ... }]. Every turn advances [iidx],
    so 36 turns are enough ([parseLoop_fuel] below). *)
Fixpoint parseLoop (fuel : nat) (str : string) (obuf : option (list Z))
    (iidx oidx : nat) : LoopEnd :=
  if (iidx <? 36)%nat && (oidx <? 16)%nat then
    match fuel with
    | O => OutOfFuel
    | S fuel' =>
        let cc0a := charCodeAt str iidx in
        if bool_decide (cc0a = Some dashCode) then
          if negb (iidx =? 8)%nat && negb (iidx =? 13)%nat
             && negb (iidx =? 18)%nat && negb (iidx =? 23)%nat
          then ReturnNull
          else parseLoop fuel' str obuf (S iidx) oidx
        else
          let cc0 := hexAsciiToBits cc0a in
          let cc1 := hexAsciiToBits (charCodeAt str (iidx + 1)) in
          if (cc0 =? -1) || (cc1 =? -1) then ReturnNull
          else
            let obuf' :=
              (fun b => store b oidx (Z.lor (Z.shiftl cc0 16) cc1)) <$> obuf in
            parseLoop fuel' str obuf' (iidx + 2) (S oidx)
    end
  else Exit iidx oidx obuf.

(** One turn of [for (let i = 0; i < 2; i++)]: [Some r] when the pass
    returns [r], [None] when it falls through to the next turn. The loop
    is given its 36 turns, so [OutOfFuel] does not arise. *)
Definition parsePass (str : string) (i : nat)
  : option (option (list Z)) :=
  let obuf := if (i =? 1)%nat then Some (replicate 16 0) else None in
  match parseLoop 36 str obuf 0 0 with
  | ReturnNull | OutOfFuel => Some None
  | Exit iidx oidx obuf' =>
      if negb (iidx =? 36)%nat || negb (oidx =? 16)%nat then Some None
      else match obuf' with
           | Some b => Some (Some b)
           | None => None
           end
  end.

(** The result of [parseUUIDString]: the bytes, [null], or the
    [Error("Undefined!")] after the loop. *)
Inductive Parsed :=
| Bytes (b : list Z)
| Null
| Threw.

Definition ofReturn (r : option (list Z)) : Parsed :=
  match r with Some b => Bytes b | None => Null end.

Definition parseUUIDString (str : string) : Parsed :=
  if negb (String.length str =? 36)%nat then Null
  else match parsePass str 0 with
       | Some r => ofReturn r
       | None =>
           match parsePass str 1 with
           | Some r => ofReturn r
           | None => Threw
           end
       end.

Definition newUUIDv7String (now : Z) (gp : UUIDGeneratorState)
    (ts seq : option Z) : string * UUIDGeneratorState :=
  let '(bytes, gp') := newUUIDv7Bytes now gp ts seq in
  (uuidBytesToString bytes, gp').

End UUIDv7.

(** ** [src/serverUUIDv7.ts]: the bundles the server issues *)

Module ServerUUIDv7.
Import Num UUIDv7.

(** The bytes [makeSigned()] encodes when it is given no bundle:
    [random] is [randomBytes(80)], [timeStamp] is [Date.now()], and the
    loop [initBytes[i] = 0xff & (timeStamp / Math.pow(256, 5 - i))] runs
    over the first six bytes. *)
Definition initBytes (random : list Z) (timeStamp : Z) : list Z :=
  fold_left (fun acc i => store acc i (Z.land 0xff (Z.quot timeStamp
                                         (256 ^ Z.of_nat (5 - i)))))
    (seq 0 6) random.

(** [makeSigned(initBytesBase64?)]. [toBase64] is
    [Buffer.prototype.toString("base64")] and [sign] the RSA-SHA256
    signature of the text under the server's key, in base 64; both belong
    to the platform. An empty text counts as no text. *)
Definition makeSigned (toBase64 : list Z -> string) (sign : string -> string)
    (random : list Z) (timeStamp : Z) (initBytesBase64 : option string)
  : SerializedGenerationParams :=
  let text :=
    match initBytesBase64 with
    | Some t => if String.eqb t EmptyString
                then toBase64 (initBytes random timeStamp) else t
    | None => toBase64 (initBytes random timeStamp)
    end in
  {| UUIDv7.initBytesBase64 := text; signatureBase64 := sign text |}.

End ServerUUIDv7.

(** ** JavaScript values, as far as the server inspects them *)

Module JS.

(** An object is its identity [ref] together with the properties that a
    read finds on it (own or inherited). A promise and a function are
    objects of their own kind with the built-in properties only. Numbers
    are integral. *)
#[warnings="-register-all"]
Inductive Value :=
| VUndefined
| VNull
| VBool (b : bool)
| VNumber (n : Z)
| VString (s : string)
| VObject (ref : nat) (props : list (string * Value))
| VPromise (ref : nat)
| VFunction (ref : nat).

Definition typeof (v : Value) : string :=
  match v with
  | VUndefined => "undefined"
  | VNull | VObject _ _ | VPromise _ => "object"
  | VBool _ => "boolean"
  | VNumber _ => "number"
  | VString _ => "string"
  | VFunction _ => "function"
  end.

Fixpoint assoc (k : string) (props : list (string * Value)) : Value :=
  match props with
  | [] => VUndefined
  | (k', v) :: rest => if String.eqb k k' then v else assoc k rest
  end.

(** [v?.k] for the two names the server reads, [type] and [message]:
    [undefined] on [null] and [undefined], and on every value that has no
    such property (primitives, promises, functions). *)
Definition optGet (v : Value) (k : string) : Value :=
  match v with
  | VObject _ props => assoc k props
  | _ => VUndefined
  end.

(** [a ?? b] *)
Definition nullish (a b : Value) : Value :=
  match a with
  | VUndefined | VNull => b
  | _ => a
  end.

(** [a === b]: primitives by value, objects by identity. *)
Definition strictEq (a b : Value) : bool :=
  match a, b with
  | VUndefined, VUndefined => true
  | VNull, VNull => true
  | VBool x, VBool y => Bool.eqb x y
  | VNumber x, VNumber y => x =? y
  | VString x, VString y => String.eqb x y
  | VObject r _, VObject r' _ => (r =? r')%nat
  | VPromise r, VPromise r' => (r =? r')%nat
  | VFunction r, VFunction r' => (r =? r')%nat
  | _, _ => false
  end.

End JS.

(** ** [src/shared.ts]: the messages *)

Module Wire.
Import JS UUIDv7.

Inductive ClientToServerMessage :=
| Connect (lastSeen : string) (clientId : option string)
          (uuidParams : option SerializedGenerationParams)
| Action (actionId : string) (actionData : Value).

Inductive RespType := needAuthentication | badAuthorization | rejectAction.

Definition respTypeName (t : RespType) : string :=
  match t with
  | needAuthentication => "needAuthentication"
  | badAuthorization => "badAuthorization"
  | rejectAction => "rejectAction"
  end.

(** The three fault responses share one shape in [server.ts]:
    [{type: respType, actionId, message}]. *)
Inductive ServerToClientMessage (State : Type) :=
| InvalidStore
| Connected (initialState : State) (clientId : string)
            (uuidParams : SerializedGenerationParams)
| Fault (type : RespType) (actionId : string) (message : Value)
| ActionMsg (action : Value) (id : string)
| AckAction (id : string)
| ReplaceAction (fromId toId : string) (action : Value)
| RenameId (fromId toId : string).

Arguments InvalidStore {State}.
Arguments Connected {State}.
Arguments Fault {State}.
Arguments ActionMsg {State}.
Arguments AckAction {State}.
Arguments ReplaceAction {State}.
Arguments RenameId {State}.

End Wire.

(** ** [src/server.ts]: the live handler of a session *)

Module Server.
Import Num JS UUIDv7 Wire.

(** Identities of the objects the server shares by reference. *)
Definition Ref := nat.
Definition Socket := nat.

(** [identity] is never assigned by the server and [sendToClient],
    [processFromClient] and [close] are the functions below. [socket] is
    the socket these closures capture. *)
Record ReduxMPServerClientContext := mkClient {
  autoClientId : string;
  clientId : option string;
  contextId : string;
  uuidParams : option SerializedGenerationParams;
  uuidGenState : option UUIDGeneratorState;
  socket : Socket
}.

(** The client contexts, by identity: the session's closure and the
    context's [socketToClient] hold the same object. *)
Abbreviation Clients := (gmap Ref ReduxMPServerClientContext).

Section WithStore.

(** The state of the redux store and the tasks handed to [schedule]. *)
Context {State Task : Type}.

(** [options.reducer] *)
Variable reducer : State -> Value -> State.

(** What the action filter sees: [key], [getState()], [verifyUUID]. Its
    calls of [schedule] are the tasks it returns. *)
Record MPServerActionFilterContext := mkFilterContext {
  key : string;
  getState : State;
  verifyUUID : string -> bool
}.

(** [options.actionFilter], absent when the option is not given. *)
Variable actionFilter :
  option (MPServerActionFilterContext -> Value -> Value * list Task).

(** [gpContext.verify] and the platform's [atob]. *)
Variable verifySigned : SerializedGenerationParams -> bool.
Variable atob : string -> list Z.

(** [socketToClient] is a [Map]: keys in insertion order, each once. *)
Record ReduxMPServerContext := mkContext {
  store : State;
  socketToClient : list (Socket * Ref);
  lastAction : string;
  scheduledQueue : list Task
}.

(** Modelled from the spec: the redux store is a library outside the
    repository; [store.dispatch(a)] is the reducer application
    [state := reducer(state, a)] of section 4.7.2, and [getState()]
    reads the state. *)
Definition dispatch (s : State) (a : Value) : State := reducer s a.

(** A message handed to the [sendToClient] of the client [to]. *)
Definition Sent : Type := Ref * ServerToClientMessage State.

(** The messages handed to the client [r], in order. *)
Definition sentTo (r : Ref) (l : list Sent)
  : list (ServerToClientMessage State) :=
  map snd (List.filter (fun e : Sent => (e.1 =? r)%nat) l).

(** [Map.prototype.set] and [Map.prototype.delete]. *)
Fixpoint mapSet (k : Socket) (v : Ref) (m : list (Socket * Ref))
  : list (Socket * Ref) :=
  match m with
  | [] => [(k, v)]
  | (k', v') :: rest =>
      if (k =? k')%nat then (k, v) :: rest else (k', v') :: mapSet k v rest
  end.

Definition mapDelete (k : Socket) (m : list (Socket * Ref))
  : list (Socket * Ref) :=
  List.filter (fun e => negb (k =? e.1)%nat) m.

(** [filterContext.verifyUUID], closed over the session. [Date.now()]
    is not read: [ts] is supplied. [parseUUIDString] never reaches its
    [throw] ([parseUUIDString_returns]). *)
Definition sessionVerifyUUID (clientContext : ReduxMPServerClientContext)
    (uuid : string) : bool :=
  match uuidGenState clientContext with
  | None => false
  | Some genState =>
      match parseUUIDString uuid with
      | Null | Threw => false
      | Bytes parsed =>
          if negb (isUUIDv7 parsed) then false
          else
            let ts := getUUIDv7Timestamp parsed in
            let seqNo := getUUIDv7SeqNo parsed in
            let checked :=
              (newUUIDv7Bytes 0 genState (Some ts) (Some seqNo)).1 in
            if negb (length checked =? length parsed)%nat then false
            else forallb (fun i => load checked i =? load parsed i)
                         (seq 0 (length checked))
      end
  end.

(** [filteredAction?.type ?? filteredAction], matched against the three
    [case] labels. *)
Definition filteredType (filteredAction : Value) : Value :=
  nullish (optGet filteredAction "type") filteredAction.

Definition faultOf (t : Value) : option RespType :=
  if strictEq t (VString "reject") then Some rejectAction
  else if strictEq t (VString "needAuth") then Some needAuthentication
  else if strictEq t (VString "badAuth") then Some badAuthorization
  else None.

(** The verdicts of the specification's table: the name given as a
    string, or as the [type] field of a fault object. *)
Definition faultName (t : RespType) : string :=
  match t with
  | rejectAction => "reject"
  | needAuthentication => "needAuth"
  | badAuthorization => "badAuth"
  end.

Definition verdictNamed (name : string) (v : Value) : Prop :=
  v = VString name
  \/ exists ref props, v = VObject ref props /\ assoc "type" props = VString name.

(** [msg.actionId < context.lastAction || msg.actionId > next ? next
    : msg.actionId], on strings. *)
Definition chooseId (actionId lastAction next : string) : string :=
  if String.ltb actionId lastAction || String.ltb next actionId
  then next else actionId.

(** The loop over [context.socketToClient]. A reference of the map
    always denotes a client context. *)
Definition fanOut (clients : Clients) (self : ReduxMPServerClientContext)
    (m : list (Socket * Ref)) (msg : ServerToClientMessage State)
  : list Sent :=
  flat_map
    (fun e : Socket * Ref =>
       match clients !! e.2 with
       | Some iterClient =>
           if String.eqb (autoClientId iterClient) (autoClientId self)
           then [] else [(e.2, msg)]
       | None => []
       end) m.

(** [options.actionFilter ? options.actionFilter(filterContext,
    msg.actionData) : msg.actionData], with the tasks the filter passed to
    [schedule]. *)
Definition invokeFilter (context : ReduxMPServerContext)
    (clientContext : ReduxMPServerClientContext) (actionData : Value)
  : Value * list Task :=
  match actionFilter with
  | Some f =>
      f {| key := contextId clientContext;
           getState := store context;
           verifyUUID := sessionVerifyUUID clientContext |} actionData
  | None => (actionData, [])
  end.

(** What a call of the handler leaves behind. *)
Record Outcome := mkOutcome {
  clients' : Clients;
  context' : ReduxMPServerContext;
  sent : list Sent
}.

(** [case "connect"]. [fresh] is what [gpContext.makeSigned()] returns
    when it is called. *)
Definition processConnect (fresh : SerializedGenerationParams)
    (clients : Clients) (context : ReduxMPServerContext) (self : Ref)
    (clientContext : ReduxMPServerClientContext)
    (msgClientId : option string)
    (msgParams : option SerializedGenerationParams) : Outcome :=
  let cid :=
    match msgClientId with
    | Some c => if String.eqb c "" then clientId clientContext else Some c
    | None => clientId clientContext
    end in
  let msgParams' :=
    match msgParams with
    | Some p => if verifySigned p then Some p else Some fresh
    | None => None
    end in
  let params := default fresh msgParams' in
  let clientContext' :=
    {| autoClientId := autoClientId clientContext;
       clientId := cid;
       contextId := contextId clientContext;
       uuidParams := Some params;
       uuidGenState := Some (signedInfoToUuid7GenParams atob params);
       socket := socket clientContext |} in
  {| clients' := <[self := clientContext']> clients;
     context' := context;
     sent := [(self, Connected (store context)
                       (default (autoClientId clientContext) cid)
                       params)] |}.

(** [case "action"]. [next] is what [v7uuid()] returns. *)
Definition processAction (next : string)
    (clients : Clients) (context : ReduxMPServerContext) (self : Ref)
    (clientContext : ReduxMPServerClientContext)
    (actionId : string) (actionData : Value) : Outcome :=
  if negb (String.eqb "object" (typeof actionData)) then
    {| clients' := clients; context' := context; sent := [] |}
  else
    let id := chooseId actionId (lastAction context) next in
    let '(filteredAction, tasks) :=
      invokeFilter context clientContext actionData in
    let context1 :=
      {| store := store context;
         socketToClient := socketToClient context;
         lastAction := lastAction context;
         scheduledQueue := (scheduledQueue context ++ tasks)%list |} in
    match faultOf (filteredType filteredAction) with
    | Some respType =>
        {| clients' := clients;
           context' := context1;
           sent :=
             [(self,
               Fault respType actionId
                 (nullish (optGet filteredAction "message")
                    (VString ("no extra message given for "
                              ++ respTypeName respType))))] |}
    | None =>
        let isReplaced := negb (strictEq filteredAction actionData) in
        let context2 :=
          {| store := dispatch (store context1) filteredAction;
             socketToClient := socketToClient context1;
             lastAction := lastAction context1;
             scheduledQueue := scheduledQueue context1 |} in
        let reply :=
          if isReplaced then ReplaceAction actionId id filteredAction
          else if negb (String.eqb id actionId) then RenameId actionId id
          else AckAction actionId in
        {| clients' := clients;
           context' := context2;
           sent :=
             (self, reply)
               :: fanOut clients clientContext (socketToClient context2)
                    (ActionMsg filteredAction id) |}
    end.

(** The oracles a call may consult. *)
Record Oracle := mkOracle {
  v7uuid : string;
  makeSigned : SerializedGenerationParams
}.

(** [clientContext.processFromClient] once the session is live. [self]
    is the client context the closure holds; it always exists. *)
Definition processFromClient (o : Oracle)
    (clients : Clients) (context : ReduxMPServerContext) (self : Ref)
    (msg : ClientToServerMessage) : Outcome :=
  match clients !! self with
  | None => {| clients' := clients; context' := context; sent := [] |}
  | Some clientContext =>
      match msg with
      | Connect _ msgClientId msgParams =>
          processConnect (makeSigned o) clients context self clientContext
            msgClientId msgParams
      | Action actionId actionData =>
          processAction (v7uuid o) clients context self clientContext
            actionId actionData
      end
  end.

(** The messages of the sessions of one context, handled in the order of
    their arrival: each with the oracles of its call and the session it
    arrived on. *)
Definition deliver (st : Clients * ReduxMPServerContext)
    (arrivals : list (Oracle * Ref * ClientToServerMessage))
  : Clients * ReduxMPServerContext :=
  fold_left
    (fun st a =>
       let out := processFromClient a.1.1 st.1 st.2 a.1.2 a.2 in
       (clients' out, context' out))
    arrivals st.

(** As [deliver], with the messages handed to [sendToClient] on the way,
    in the order of the calls. *)
Definition deliverLog (st : Clients * ReduxMPServerContext)
    (arrivals : list (Oracle * Ref * ClientToServerMessage))
  : Clients * ReduxMPServerContext * list Sent :=
  fold_left
    (fun acc a =>
       let out := processFromClient a.1.1 acc.1.1 acc.1.2 a.1.2 a.2 in
       (clients' out, context' out, (acc.2 ++ sent out)%list))
    arrivals (st, []).

(** The state a replica of the store holds after the messages [msgs], if
    it takes the [initialState] of each [connected] and dispatches the
    [action] of each [action] to a store of its own with the same
    reducer, as the client's [processFromServer] does for its shared
    slice; the other messages do not touch a store. *)
Definition replica (s : State) (msgs : list (ServerToClientMessage State))
  : State :=
  fold_left
    (fun s m =>
       match m with
       | Connected initialState _ _ => initialState
       | ActionMsg action _ => dispatch s action
       | _ => s
       end)
    msgs s.

(** An arrival during which the session with [autoClientId] [auto]
    only listens: if it is an action, it comes from a session with another
    [autoClientId]. *)
Definition others_act (clients : Clients) (auto : string)
    (a : Oracle * Ref * ClientToServerMessage) : Prop :=
  match a.2 with
  | Connect _ _ _ => True
  | Action _ _ =>
      forall S, clients !! a.1.2 = Some S -> autoClientId S <> auto
  end.

(** *** [connect]: a session is created and attached *)

(** The client context [connect({socket, key})] creates; [autoId] is what
    [v7uuid()] returns. *)
Definition newClientContext (autoId key : string) (sock : Socket)
  : ReduxMPServerClientContext :=
  {| autoClientId := autoId; clientId := None; contextId := key;
     uuidParams := None; uuidGenState := None; socket := sock |}.

(** The new object, beside the client contexts there are. *)
Definition openSession (autoId key : string) (sock : Socket)
    (clients : Clients) : Ref * Clients :=
  let self := fresh (dom clients) in
  (self, <[self := newClientContext autoId key sock]> clients).

(** [context.socketToClient.set(socket, clientContext)], once the context
    is there and the socket is still open. From here on the session is
    live: its messages go to [processFromClient]. *)
Definition attach (self : Ref) (sock : Socket)
    (context : ReduxMPServerContext) : ReduxMPServerContext :=
  {| store := store context;
     socketToClient := mapSet sock self (socketToClient context);
     lastAction := lastAction context;
     scheduledQueue := scheduledQueue context |}.

(** [clientContext.close()], as far as the context is concerned. *)
Definition close (context : ReduxMPServerContext)
    (clientContext : ReduxMPServerClientContext) : ReduxMPServerContext :=
  {| store := store context;
     socketToClient := mapDelete (socket clientContext)
                         (socketToClient context);
     lastAction := lastAction context;
     scheduledQueue := scheduledQueue context |}.

(** *** [createContext]: the registry and its pending creations *)

(** A promise of [pendings]: pending, resolved with a context (denoted by
    its key in [contexts]) or with [null], or rejected. *)
Inductive PromiseState :=
| Pending
| Resolved (v : option string)
| Rejected (reason : Value).

(** What [options.hydrate(key, null)] settles with. *)
Inductive Hydrated :=
| Returned (initialData : option State)
| Thrown (reason : Value).

(** Whether a state is truthy in JavaScript (every object is). *)
Variable truthy : State -> bool.

(** [pendings] and [contexts] of the server, the promises [createContext]
    has created, the calls of [createContext] that are suspended at
    [await options.hydrate(key, null)] (by the promise each installed,
    with its key), and the keys [hydrate] has been called with. *)
Record Registry := mkRegistry {
  pendings : gmap string Ref;
  contexts : gmap string ReduxMPServerContext;
  promises : gmap Ref PromiseState;
  hydrating : gmap Ref string;
  hydrateCalls : list string
}.

(** Where a call of [createContext] first suspends. *)
Inductive Suspended :=
| AwaitPending (p : Ref)
| AwaitHydrate (p : Ref).

(** [createContext(key)] up to its first [await]. *)
Definition createContextEnter (key : string) (r : Registry)
  : Registry * Suspended :=
  match pendings r !! key with
  | Some pending => (r, AwaitPending pending)
  | None =>
      let p := fresh (dom (promises r)) in
      ({| pendings := <[key := p]> (pendings r);
          contexts := contexts r;
          promises := <[p := Pending]> (promises r);
          hydrating := <[p := key]> (hydrating r);
          hydrateCalls := (hydrateCalls r ++ [key])%list |},
       AwaitHydrate p)
  end.

(** What the call of [createContext] that installed the promise returns:
    the context, [null], or [undefined] after the [catch]. *)
Inductive Created :=
| CreatedContext (key : string)
| CreatedNull
| CreatedUndefined.

(** Modelled from the spec: [createStore(reducer, initialData)] of the
    redux library holds [initialData] as the state of the new store. *)
Definition createStore (initialData : State) : State := initialData.

(** [createContext(key)] from the point where [hydrate] has settled to its
    end, for the call that installed [p]. [v7] is what [v7uuid()] returns.
    The worker the new context starts only runs the tasks of
    [scheduledQueue]. *)
Definition createContextResume (v7 : string) (key : string) (p : Ref)
    (h : Hydrated) (r : Registry) : Registry * Created :=
  let finally (contexts' : gmap string ReduxMPServerContext)
              (promises' : gmap Ref PromiseState) :=
    {| pendings := delete key (pendings r);
       contexts := contexts';
       promises := promises';
       hydrating := delete p (hydrating r);
       hydrateCalls := hydrateCalls r |} in
  match h with
  | Returned initialData =>
      match initialData with
      | Some d =>
          if truthy d then
            let context :=
              {| store := createStore d;
                 socketToClient := [];
                 lastAction := v7;
                 scheduledQueue := [] |} in
            (finally (<[key := context]> (contexts r))
                     (<[p := Resolved (Some key)]> (promises r)),
             CreatedContext key)
          else (finally (contexts r) (promises r), CreatedNull)
      | None => (finally (contexts r) (promises r), CreatedNull)
      end
  | Thrown e =>
      (finally (contexts r) (<[p := Rejected e]> (promises r)),
       CreatedUndefined)
  end.

(** What moves the registry: a call of [createContext], and [hydrate]
    settling for the call that installed [p]. *)
Inductive Event :=
| Call (key : string)
| Settle (p : Ref) (h : Hydrated) (v7 : string).

Definition step (r : Registry) (e : Event) : Registry :=
  match e with
  | Call key => (createContextEnter key r).1
  | Settle p h v7 =>
      match hydrating r !! p with
      | Some key => (createContextResume v7 key p h r).1
      | None => r
      end
  end.

Definition run (r : Registry) (es : list Event) : Registry :=
  fold_left step es r.

(** What a caller suspended at [await pending] has obtained so far: nothing
    while the promise is pending. *)
Definition awaited (r : Registry) (p : Ref) : option PromiseState :=
  match promises r !! p with
  | Some Pending | None => None
  | Some settled => Some settled
  end.

Definition emptyRegistry : Registry :=
  {| pendings := ∅; contexts := ∅; promises := ∅; hydrating := ∅;
     hydrateCalls := [] |}.

(** [contexts.get(key) ?? (await createContext(key))], the lookup of
    [connect], up to its first [await]: the context is there, or the call
    of [createContext] is suspended. *)
Inductive Lookup :=
| Found (key : string)
| Wait (at_ : Suspended).

Definition connectLookup (key : string) (r : Registry)
  : Registry * Lookup :=
  match contexts r !! key with
  | Some _ => (r, Found key)
  | None =>
      let '(r', s) := createContextEnter key r in (r', Wait s)
  end.

(** What moves the registry of a server: a call of [connect], and
    [hydrate] settling for the call of [createContext] that installed
    [p]. *)
Inductive ServerEvent :=
| Connecting (key : string)
| Settling (p : Ref) (h : Hydrated) (v7 : string).

Definition serverStep (r : Registry) (e : ServerEvent) : Registry :=
  match e with
  | Connecting key => (connectLookup key r).1
  | Settling p h v7 => step r (Settle p h v7)
  end.

Definition serverRun (r : Registry) (es : list ServerEvent) : Registry :=
  fold_left serverStep es r.

(** What holds of the registry of a server at every moment: a call
    suspended at [hydrate] has its promise, still pending, in [pendings]
    under its key, the key has no context yet, and every promise of
    [pendings] belongs to such a call. *)
Definition consistent (r : Registry) : Prop :=
  (forall p key,
      hydrating r !! p = Some key ->
      pendings r !! key = Some p
      /\ contexts r !! key = None
      /\ promises r !! p = Some Pending)
  /\ (forall key p, pendings r !! key = Some p -> hydrating r !! p = Some key).

End WithStore.

End Server.

(** ** A store to run the handler on

    The counter of the specification's scenarios: the state is the count,
    [{type: "inc"}] increments it. Three sessions are attached to one
    context. *)

Module Scenario.
Import Num JS UUIDv7 Wire Server.

Definition counter (s : Z) (a : Value) : Z :=
  if strictEq (optGet a "type") (VString "inc") then s + 1 else s.

Definition inc (ref : nat) : Value := VObject ref [("type", VString "inc")].

Definition session (auto : string) (sock : Socket)
  : ReduxMPServerClientContext :=
  {| autoClientId := auto; clientId := None; contextId := "room/a";
     uuidParams := None; uuidGenState := None; socket := sock |}.

Definition alice : Ref := 0%nat.
Definition bob : Ref := 1%nat.
Definition carol : Ref := 2%nat.

Definition sessions : Clients :=
  <[alice := session "018e0000-0000-7000-8000-00000000000a" 10%nat]>
    (<[bob := session "018e0000-0000-7000-8000-00000000000b" 11%nat]>
       (<[carol := session "018e0000-0000-7000-8000-00000000000c" 12%nat]> ∅)).

Definition room : @ReduxMPServerContext Z unit :=
  {| store := 0;
     socketToClient := [(10, alice); (11, bob); (12, carol)]%nat;
     lastAction := "018e0000-0000-7000-8000-000000000000";
     scheduledQueue := [] |}.

Definition oracle : Oracle :=
  {| v7uuid := "018f0000-0000-7000-8000-000000000002";
     makeSigned := {| initBytesBase64 := "AAAA"; signatureBase64 := "c2ln" |} |}.

Definition noFilter
  : option (@MPServerActionFilterContext Z -> Value -> Value * list unit) :=
  None.

(** A filter that turns everything down, and one that defers. *)
Definition rejecting
  : option (@MPServerActionFilterContext Z -> Value -> Value * list unit) :=
  Some (fun _ _ => (VString "reject", [])).

Definition deferring
  : option (@MPServerActionFilterContext Z -> Value -> Value * list unit) :=
  Some (fun _ _ => (VPromise 77, [])).

Definition handle filter :=
  processFromClient counter filter (fun _ => true) (fun _ => replicate 80 0)
    oracle sessions room alice.

Definition aliceSession : ReduxMPServerClientContext :=
  session "018e0000-0000-7000-8000-00000000000a" 10%nat.

Definition firstId : string := "018f0000-0000-7000-8000-000000000001".

Definition staleId : string := "00000000-0000-7000-8000-000000000000".

(** The bytes of a text, to hash it. *)
Definition bytesOf (text : string) : list Z :=
  map (fun c => Z.of_nat (nat_of_ascii c)) (list_ascii_of_string text).

(** Two generator states over one seed. *)
Definition genA : UUIDGeneratorState :=
  {| notBefore := 1700000000000; lastGenTS := 1700000000000; lastGenSeq := 0;
     seed := replicate 6 0 ++ replicate 74 7; privKey := "c2ln" |}.

Definition genB : UUIDGeneratorState :=
  {| notBefore := 5; lastGenTS := 9; lastGenSeq := 3;
     seed := replicate 6 0 ++ replicate 74 7; privKey := "b3Ro" |}.

(** Two callers on a cold key whose [hydrate] returns [null]: the first
    is suspended at [hydrate], the second at [await pending]. *)
Definition ghost : list (@Event Z) :=
  [ Call "room/ghost"; Call "room/ghost";
    Settle 0%nat (Returned None) "018e0000-0000-7000-8000-000000000000" ].

Definition cold : @Registry Z unit := emptyRegistry.

Definition anyState (_ : Z) : bool := true.

End Scenario.

(** ** The layout of an identifier's text

    What [parseUUIDString] turns out to accept, said without the loop:
    36 characters, a dash at 8, 13, 18 and 23 and a hexadecimal digit
    everywhere else; and what it then returns. *)

Module Layout.
Import Num UUIDv7.

Definition dashPlace (p : nat) : bool :=
  (p =? 8)%nat || (p =? 13)%nat || (p =? 18)%nat || (p =? 23)%nat.

Definition isHexCode (c : option Z) : bool := negb (hexAsciiToBits c =? -1).

Definition placeOk (str : string) (p : nat) : bool :=
  if dashPlace p then bool_decide (charCodeAt str p = Some dashCode)
  else isHexCode (charCodeAt str p).

Definition wellFormed (str : string) : bool :=
  (String.length str =? 36)%nat && forallb (placeOk str) (seq 0 36).

(** The dash places at or after [i]. *)
Definition dashesFrom (i : nat) : nat :=
  ((if i <=? 8 then 1 else 0) + (if i <=? 13 then 1 else 0)
   + (if i <=? 18 then 1 else 0) + (if i <=? 23 then 1 else 0))%nat.

(** Where the two digits of byte [o] stand. *)
Definition pairAt (o : nat) : nat :=
  (2 * o + (if 4 <=? o then 1 else 0) + (if 6 <=? o then 1 else 0)
   + (if 8 <=? o then 1 else 0) + (if 10 <=? o then 1 else 0))%nat.

(** The value of the second digit of each pair. *)
Definition secondDigits (str : string) : list Z :=
  map (fun o => hexAsciiToBits (charCodeAt str (pairAt o + 1))) (seq 0 16).

(** The bytes the sharp pass has still to store from byte [o] on. *)
Definition fillFrom (str : string) (o : nat) (b : list Z) : list Z :=
  fold_left
    (fun b k =>
       store b k
         (Z.lor (Z.shiftl (hexAsciiToBits (charCodeAt str (pairAt k))) 16)
                (hexAsciiToBits (charCodeAt str (pairAt k + 1)))))
    (seq o (16 - o)) b.

(** On the way of a well-formed text, [iidx] is where the pair of byte
    [oidx] stands: every dash place before it has been crossed. *)
Definition onTrack (i o : nat) : Prop := (i + dashesFrom i = 2 * o + 4)%nat.

End Layout.

(** ** Proof tools *)

Ltac nibble_cases h :=
  let Hc := fresh "Hc" in
  assert (h = 0 \/ h = 1 \/ h = 2 \/ h = 3 \/ h = 4 \/ h = 5 \/ h = 6 \/ h = 7
          \/ h = 8 \/ h = 9 \/ h = 10 \/ h = 11 \/ h = 12 \/ h = 13 \/ h = 14
          \/ h = 15) as Hc by lia;
  repeat destruct Hc as [Hc|Hc]; subst h.

(** * Properties *)

(** ** The hash and the codec on known inputs *)

Module CodecFacts.
Import Num UUIDv7 Scenario.

Example sha256_abc :
  Sha256.sha256 [97; 98; 99] =
  [ 0xba; 0x78; 0x16; 0xbf; 0x8f; 0x01; 0xcf; 0xea;
    0x41; 0x41; 0x40; 0xde; 0x5d; 0xae; 0x22; 0x23;
    0xb0; 0x03; 0x61; 0xa3; 0x96; 0x17; 0x7a; 0x9c;
    0xb4; 0x10; 0xff; 0x61; 0xf2; 0x00; 0x15; 0xad ].
Proof. vm_compute. reflexivity. Qed.

(** A message of two blocks (the second test vector of FIPS 180). *)
Example sha256_two_blocks :
  Sha256.sha256
    (bytesOf "abcdbcdecdefdefgefghfghighijhijkijkljklmklmnlmnomnopnopq")
  = [ 0x24; 0x8d; 0x6a; 0x61; 0xd2; 0x06; 0x38; 0xb8;
      0xe5; 0xc0; 0x26; 0x93; 0x0c; 0x3e; 0x60; 0x39;
      0xa3; 0x3c; 0xe4; 0x59; 0x64; 0xff; 0x21; 0x67;
      0xf6; 0xec; 0xed; 0xd4; 0x19; 0xdb; 0x06; 0xc1 ].
Proof. vm_compute. reflexivity. Qed.

Example sha256_empty :
  Sha256.sha256 []
  = [ 0xe3; 0xb0; 0xc4; 0x42; 0x98; 0xfc; 0x1c; 0x14;
      0x9a; 0xfb; 0xf4; 0xc8; 0x99; 0x6f; 0xb9; 0x24;
      0x27; 0xae; 0x41; 0xe4; 0x64; 0x9b; 0x93; 0x4c;
      0xa4; 0x95; 0x99; 0x1b; 0x78; 0x52; 0xb8; 0x55 ].
Proof. vm_compute. reflexivity. Qed.

(** Every turn of the loop advances [iidx]: 36 turns are enough. *)
Lemma parseLoop_fuel fuel str obuf iidx oidx :
  (36 <= fuel + iidx)%nat ->
  parseLoop fuel str obuf iidx oidx <> OutOfFuel.
Proof.
  revert obuf iidx oidx.
  induction fuel as [|fuel IH]; intros obuf iidx oidx Hfuel; simpl.
  - destruct (iidx <? 36)%nat eqn:Hi; [|discriminate].
    apply Nat.ltb_lt in Hi. lia.
  - destruct ((iidx <? 36)%nat && (oidx <? 16)%nat); [|discriminate].
    case_bool_decide.
    + destruct (negb _ && _ && _ && _); [discriminate|].
      apply IH. lia.
    + destruct (_ || _); [discriminate|].
      apply IH. lia.
Qed.

(** A pass that was given a buffer still has one when its loop ends. *)
Lemma parseLoop_keeps_buffer fuel str b iidx oidx iidx' oidx' obuf' :
  parseLoop fuel str (Some b) iidx oidx = Exit iidx' oidx' obuf' ->
  exists b', obuf' = Some b'.
Proof.
  revert b iidx oidx.
  induction fuel as [|fuel IH]; intros b iidx oidx; simpl.
  - destruct (_ && _); [discriminate|].
    intros [= <- <- <-]. eauto.
  - destruct (_ && _); [|intros [= <- <- <-]; eauto].
    case_bool_decide.
    + destruct (negb _ && _ && _ && _); [discriminate|]. apply IH.
    + destruct (_ || _); [discriminate|]. apply IH.
Qed.

(** The [throw] after the two passes is never reached. *)
Lemma parseUUIDString_returns str : parseUUIDString str <> Threw.
Proof.
  unfold parseUUIDString.
  destruct (negb _); [discriminate|].
  destruct (parsePass str 0) as [[r|]|]; try discriminate.
  unfold parsePass. simpl (1 =? 1)%nat. cbv iota.
  destruct (parseLoop 36 str _ 0 0) as [|iidx oidx obuf|] eqn:Hloop;
    try discriminate.
  apply parseLoop_keeps_buffer in Hloop as [b' ->].
  destruct (_ || _); discriminate.
Qed.

(** *** What the parser stores

    [obuf[oidx++] = (cc0 << 16) | cc1] keeps, in a byte, only [cc1]: the
    high nibble is shifted out of the byte. *)

Lemma hexAsciiToBits_range a : -1 <= hexAsciiToBits a < 16.
Proof.
  destruct a as [a|]; simpl; [|lia].
  repeat match goal with
         | |- context [if ?c then _ else _] => destruct c eqn:?
         end; lia.
Qed.

Lemma stored_nibble cc0 cc1 :
  0 <= cc0 < 16 -> 0 <= cc1 < 16 -> u8 (Z.lor (Z.shiftl cc0 16) cc1) = cc1.
Proof.
  intros H0 H1. nibble_cases cc0; nibble_cases cc1; reflexivity.
Qed.

Lemma parseLoop_nibbles fuel str b iidx oidx iidx' oidx' b' :
  nibbles b ->
  parseLoop fuel str (Some b) iidx oidx = Exit iidx' oidx' (Some b') ->
  nibbles b' /\ length b' = length b.
Proof.
  revert b iidx oidx.
  induction fuel as [|fuel IH]; intros b iidx oidx Hb; simpl.
  - destruct (_ && _); [discriminate|]. intros [= <- <- <-]. auto.
  - destruct (_ && _); [|intros [= <- <- <-]; auto].
    case_bool_decide.
    + destruct (negb _ && _ && _ && _); [discriminate|]. apply IH, Hb.
    + destruct (_ || _) eqn:Hbad; [discriminate|].
      apply orb_false_iff in Hbad as [Hc0 Hc1].
      apply Z.eqb_neq in Hc0, Hc1.
      pose proof (hexAsciiToBits_range (charCodeAt str iidx)).
      pose proof (hexAsciiToBits_range (charCodeAt str (iidx + 1))).
      intros Hloop. apply IH in Hloop.
      * unfold store in Hloop. rewrite length_insert in Hloop. exact Hloop.
      * unfold store. rewrite stored_nibble by lia.
        apply Forall_insert; [exact Hb|lia].
Qed.

(** The dry run has no buffer to return. *)
Lemma parseLoop_no_buffer fuel str iidx oidx iidx' oidx' b' :
  parseLoop fuel str None iidx oidx <> Exit iidx' oidx' (Some b').
Proof.
  revert iidx oidx.
  induction fuel as [|fuel IH]; intros iidx oidx; simpl.
  - destruct (_ && _); discriminate.
  - destruct (_ && _); [|discriminate].
    case_bool_decide.
    + destruct (negb _ && _ && _ && _); [discriminate|]. apply IH.
    + destruct (_ || _); [discriminate|]. apply IH.
Qed.

Lemma parseUUIDString_nibbles str b :
  parseUUIDString str = Bytes b -> nibbles b /\ length b = 16%nat.
Proof.
  unfold parseUUIDString.
  destruct (negb _); [discriminate|].
  assert (Hpass : forall i r, parsePass str i = Some (Some r) ->
                              nibbles r /\ length r = 16%nat).
  { intros i r. unfold parsePass.
    destruct (parseLoop 36 str _ 0 0) as [|iidx oidx obuf|] eqn:Hloop;
      try discriminate.
    destruct (_ || _); [discriminate|].
    destruct obuf as [b'|]; [|discriminate]. intros [= ->].
    destruct (i =? 1)%nat.
    - apply parseLoop_nibbles in Hloop; [exact Hloop|].
      apply Forall_replicate. lia.
    - exfalso. eapply parseLoop_no_buffer, Hloop. }
  destruct (parsePass str 0) as [[r|]|] eqn:H0.
  - intros [= ->]. eauto.
  - discriminate.
  - destruct (parsePass str 1) as [[r|]|] eqn:H1; try discriminate.
    intros [= ->]. eauto.
Qed.

(** No array of nibbles carries the version nibble 7 in byte 6. *)
Lemma isUUIDv7_nibbles b : nibbles b -> isUUIDv7 b = false.
Proof.
  intros Hb. unfold isUUIDv7.
  assert (Z.land (load b 6) 0xf0 = 0) as ->.
  { unfold load. destruct (b !! 6%nat) as [x|] eqn:Hx; [|reflexivity].
    simpl. eapply Forall_lookup_1 in Hb; [|exact Hx].
    simpl in Hb. nibble_cases x; reflexivity. }
  simpl. apply andb_false_intro1, andb_false_r.
Qed.

(** A version-7 array is not an array of nibbles. *)
Lemma isUUIDv7_not_nibbles b : isUUIDv7 b = true -> ~ nibbles b.
Proof. intros Hv Hb. rewrite isUUIDv7_nibbles in Hv by exact Hb. discriminate. Qed.

(** *** What the round trip returns, exactly *)

Lemma parseLoop_unfold fuel str obuf iidx oidx :
  parseLoop (S fuel) str obuf iidx oidx
  = if (iidx <? 36)%nat && (oidx <? 16)%nat then
      let cc0a := charCodeAt str iidx in
      if bool_decide (cc0a = Some dashCode) then
        if negb (iidx =? 8)%nat && negb (iidx =? 13)%nat
           && negb (iidx =? 18)%nat && negb (iidx =? 23)%nat
        then ReturnNull
        else parseLoop fuel str obuf (S iidx) oidx
      else
        let cc0 := hexAsciiToBits cc0a in
        let cc1 := hexAsciiToBits (charCodeAt str (iidx + 1)) in
        if (cc0 =? -1) || (cc1 =? -1) then ReturnNull
        else
          parseLoop fuel str
            ((fun b => store b oidx (Z.lor (Z.shiftl cc0 16) cc1)) <$> obuf)
            (iidx + 2) (S oidx)
    else Exit iidx oidx obuf.
Proof. reflexivity. Qed.

Lemma hexChar_bits n :
  0 <= n < 16 ->
  hexAsciiToBits (Some (Z.of_nat (nat_of_ascii (hexChar n)))) = n
  /\ Z.of_nat (nat_of_ascii (hexChar n)) <> dashCode.
Proof. intros Hn. nibble_cases n; split; (reflexivity || discriminate). Qed.

Lemma byte_nibbles z :
  0 <= z < 256 -> 0 <= Z.shiftr z 4 < 16 /\ 0 <= Z.land z 0xf < 16.
Proof.
  intros Hz. rewrite Z.shiftr_div_pow2 by lia.
  change 0xf with (Z.ones 4). rewrite Z.land_ones by lia.
  change (2 ^ 4) with 16. split; [|apply Z.mod_pos_bound; lia].
  split; [apply Z.div_pos; lia|apply Z.div_lt_upper_bound; lia].
Qed.

(** One turn over two hexadecimal characters: the byte stored is the
    second nibble. *)
Lemma parseLoop_hex fuel str obuf iidx oidx h l :
  (iidx <? 36)%nat && (oidx <? 16)%nat = true ->
  String.get iidx str = Some (hexChar h) ->
  String.get (iidx + 1) str = Some (hexChar l) ->
  0 <= h < 16 ->
  0 <= l < 16 ->
  parseLoop (S fuel) str obuf iidx oidx
  = parseLoop fuel str ((fun b => <[oidx := l]> b) <$> obuf)
      (iidx + 2) (S oidx).
Proof.
  intros Hin Hget0 Hget1 Hh Hl.
  destruct (hexChar_bits h Hh) as [Hbits0 Hdash].
  destruct (hexChar_bits l Hl) as [Hbits1 _].
  rewrite parseLoop_unfold, Hin. unfold charCodeAt.
  rewrite Hget0, Hget1. cbn [fmap option_fmap option_map].
  rewrite bool_decide_eq_false_2 by congruence.
  cbv zeta. rewrite Hbits0, Hbits1.
  destruct (Z.eqb_spec h (-1)); [lia|].
  destruct (Z.eqb_spec l (-1)); [lia|]. simpl orb. cbv iota.
  unfold store. rewrite stored_nibble by assumption. reflexivity.
Qed.

(** One turn over a dash in its place. *)
Lemma parseLoop_dash fuel str obuf iidx oidx :
  (iidx <? 36)%nat && (oidx <? 16)%nat = true ->
  String.get iidx str = Some "-"%char ->
  negb (iidx =? 8)%nat && negb (iidx =? 13)%nat
  && negb (iidx =? 18)%nat && negb (iidx =? 23)%nat = false ->
  parseLoop (S fuel) str obuf iidx oidx
  = parseLoop fuel str obuf (S iidx) oidx.
Proof.
  intros Hin Hget Hplace.
  rewrite parseLoop_unfold, Hin. unfold charCodeAt.
  rewrite Hget. cbn [fmap option_fmap option_map]. cbv zeta.
  rewrite bool_decide_eq_true_2 by reflexivity.
  rewrite Hplace. reflexivity.
Qed.

Ltac parse_hex :=
  erewrite parseLoop_hex;
  [|reflexivity|reflexivity|reflexivity|eassumption|eassumption].

Ltac parse_dash :=
  rewrite parseLoop_dash by reflexivity.

(** The loop over the string of sixteen bytes, each given by its two
    nibbles: whatever buffer it starts from, it ends on the low nibbles. *)
Lemma parseLoop_canonical obuf
    h0 l0 h1 l1 h2 l2 h3 l3 h4 l4 h5 l5 h6 l6 h7 l7
    h8 l8 h9 l9 h10 l10 h11 l11 h12 l12 h13 l13 h14 l14 h15 l15 :
  Forall (fun n => 0 <= n < 16)
    [h0; l0; h1; l1; h2; l2; h3; l3; h4; l4; h5; l5; h6; l6; h7; l7;
     h8; l8; h9; l9; h10; l10; h11; l11; h12; l12; h13; l13; h14; l14;
     h15; l15] ->
  length obuf = 16%nat ->
  let hex h l rest := String (hexChar h) (String (hexChar l) rest) in
  let dash rest := String "-"%char rest in
  let str :=
    hex h0 l0 (hex h1 l1 (hex h2 l2 (hex h3 l3 (dash
    (hex h4 l4 (hex h5 l5 (dash
    (hex h6 l6 (hex h7 l7 (dash
    (hex h8 l8 (hex h9 l9 (dash
    (hex h10 l10 (hex h11 l11 (hex h12 l12 (hex h13 l13 (hex h14 l14
    (hex h15 l15 EmptyString))))))))))))))))))) in
  String.length str = 36%nat
  /\ parseLoop 36 str None 0 0 = Exit 36 16 None
  /\ parseLoop 36 str (Some obuf) 0 0
     = Exit 36 16
         (Some [l0; l1; l2; l3; l4; l5; l6; l7;
                l8; l9; l10; l11; l12; l13; l14; l15]).
Proof.
  intros Hn Hlen hex dash str.
  repeat match goal with
         | H : Forall _ (_ :: _) |- _ => apply Forall_cons in H as [? H]
         end.
  split; [reflexivity|]. split.
  - do 4 parse_hex. parse_dash. do 2 parse_hex. parse_dash.
    do 2 parse_hex. parse_dash. do 2 parse_hex. parse_dash.
    do 6 parse_hex. reflexivity.
  - do 4 parse_hex. parse_dash. do 2 parse_hex. parse_dash.
    do 2 parse_hex. parse_dash. do 2 parse_hex. parse_dash.
    do 6 parse_hex.
    do 17 (destruct obuf as [|? obuf]; try discriminate Hlen).
    reflexivity.
Qed.

(** The round trip of sixteen bytes returns their low nibbles. *)
Lemma parse_of_string_low_nibbles b :
  is_bytes b ->
  length b = 16%nat ->
  parseUUIDString (uuidBytesToString b)
  = Bytes (map (fun x => Z.land x 0xf) b).
Proof.
  intros Hb Hlen.
  do 17 (destruct b as [|? b]; try discriminate Hlen). clear Hlen.
  unfold is_bytes in Hb.
  repeat match goal with
         | H : Forall _ (_ :: _) |- _ => apply Forall_cons in H as [? H]
         end.
  repeat match goal with
         | H : 0 <= ?z < 256 |- _ =>
             destruct (byte_nibbles z H); clear H
         end.
  match goal with
  | |- parseUUIDString ?s = _ =>
      let s' := eval cbv [uuidBytesToString flat_map seq app load default
                          lookup list_lookup hexDigit String.concat
                          String.append Nat.eqb orb id] in s in
      change s with s'
  end.
  cbv [map].
  lazymatch goal with
  | |- parseUUIDString
         (String (hexChar ?h0) (String (hexChar ?l0)
         (String (hexChar ?h1) (String (hexChar ?l1)
         (String (hexChar ?h2) (String (hexChar ?l2)
         (String (hexChar ?h3) (String (hexChar ?l3) (String _
         (String (hexChar ?h4) (String (hexChar ?l4)
         (String (hexChar ?h5) (String (hexChar ?l5) (String _
         (String (hexChar ?h6) (String (hexChar ?l6)
         (String (hexChar ?h7) (String (hexChar ?l7) (String _
         (String (hexChar ?h8) (String (hexChar ?l8)
         (String (hexChar ?h9) (String (hexChar ?l9) (String _
         (String (hexChar ?h10) (String (hexChar ?l10)
         (String (hexChar ?h11) (String (hexChar ?l11)
         (String (hexChar ?h12) (String (hexChar ?l12)
         (String (hexChar ?h13) (String (hexChar ?l13)
         (String (hexChar ?h14) (String (hexChar ?l14)
         (String (hexChar ?h15) (String (hexChar ?l15) EmptyString))))))))
         )))))))))))))))))))))))))))) = _ =>
      assert (Hn : Forall (fun n => 0 <= n < 16)
                [h0; l0; h1; l1; h2; l2; h3; l3; h4; l4; h5; l5; h6; l6;
                 h7; l7; h8; l8; h9; l9; h10; l10; h11; l11; h12; l12;
                 h13; l13; h14; l14; h15; l15])
        by (repeat (apply Forall_cons; split; [assumption|]);
            constructor);
      destruct (parseLoop_canonical (replicate 16 0)
                  h0 l0 h1 l1 h2 l2 h3 l3 h4 l4 h5 l5 h6 l6 h7 l7
                  h8 l8 h9 l9 h10 l10 h11 l11 h12 l12 h13 l13 h14 l14
                  h15 l15 Hn eq_refl) as (Hlen & Hdry & Hsharp)
  end.
  cbv zeta in Hlen, Hdry, Hsharp.
  unfold parseUUIDString. rewrite Hlen. cbn [Nat.eqb negb].
  unfold parsePass. cbn [Nat.eqb]. rewrite Hdry, Hsharp. reflexivity.
Qed.

(** [filterContext.verifyUUID] accepts no string at all: whatever
    [parseUUIDString] returns fails [isUUIDv7]. *)
Lemma sessionVerifyUUID_false clientContext uuid :
  Server.sessionVerifyUUID clientContext uuid = false.
Proof.
  unfold Server.sessionVerifyUUID.
  destruct (Server.uuidGenState clientContext); [|reflexivity].
  destruct (parseUUIDString uuid) as [parsed| |] eqn:Hparse; try reflexivity.
  apply parseUUIDString_nibbles in Hparse as [Hparsed _].
  rewrite isUUIDv7_nibbles by exact Hparsed. reflexivity.
Qed.

Example minted_string :
  (newUUIDv7String 0 genA (Some 1700000000000) (Some 5)).1
  = "018bcfe5-6800-7005-b931-90f7ce309d49".
Proof. vm_compute. reflexivity. Qed.

Example minted_is_v7 :
  isUUIDv7 (newUUIDv7Bytes 0 genA (Some 1700000000000) (Some 5)).1 = true.
Proof. vm_compute. reflexivity. Qed.

(** What the parser makes of that string: the low nibble of every byte. *)
Example minted_parsed :
  parseUUIDString "018bcfe5-6800-7005-b931-90f7ce309d49"
  = Bytes [1; 11; 15; 5; 8; 0; 0; 5; 9; 1; 0; 7; 14; 0; 13; 9].
Proof. vm_compute. reflexivity. Qed.

(** C2 (code defect): the server does not recognise the identifiers
    minted under the seed it issued. For every bundle, the generator state
    [g] decoded from it on the session, and every [ts] and [seq],
    [verifyUUID] returns [false] on [newUUIDv7String(g, ts, seq)], where
    the claim has [true]. *)
Theorem verifyUUID_rejects_minted atob issued now ts seqNo a c k s :
  let g := signedInfoToUuid7GenParams atob issued in
  Server.sessionVerifyUUID
    (Server.mkClient a c k (Some issued) (Some g) s)
    (newUUIDv7String now g (Some ts) (Some seqNo)).1 = false.
Proof. intros g. apply sessionVerifyUUID_false. Qed.

(** C3 (code defect): the string codec does not round-trip. For every
    version-7 array [b], [parseUUIDString(uuidBytesToString(b))] is not
    [b]: the parser drops the high nibble of every byte, and byte 6 of [b]
    has the high nibble 7. *)
Theorem parse_of_string_differs b :
  isUUIDv7 b = true -> parseUUIDString (uuidBytesToString b) <> Bytes b.
Proof.
  intros Hv Hparse.
  apply parseUUIDString_nibbles in Hparse as [Hb _].
  exact (isUUIDv7_not_nibbles b Hv Hb).
Qed.

Lemma parse_of_string_differs_witness :
  let b := [1; 143; 0; 0; 0; 0; 112; 0; 128; 0; 0; 0; 0; 0; 0; 1] in
  isUUIDv7 b = true /\ parseUUIDString (uuidBytesToString b) <> Bytes b.
Proof.
  split; [reflexivity|]. apply parse_of_string_differs. reflexivity.
Defined.

(** C9: with [ts] and [seq] supplied, [newUUIDv7Bytes] is a function of
    the seed, [ts] and [seq] alone (two generator states with equal seeds
    give the same bytes, whatever the clock and their other fields), and
    the call leaves the generator state as it was. *)
Theorem newUUIDv7Bytes_deterministic now1 now2 g1 g2 ts seqNo :
  seed g1 = seed g2 ->
  (newUUIDv7Bytes now1 g1 (Some ts) (Some seqNo)).1
  = (newUUIDv7Bytes now2 g2 (Some ts) (Some seqNo)).1
  /\ (newUUIDv7Bytes now1 g1 (Some ts) (Some seqNo)).2 = g1
  /\ (newUUIDv7Bytes now2 g2 (Some ts) (Some seqNo)).2 = g2.
Proof.
  intros Hseed. unfold newUUIDv7Bytes. simpl. rewrite Hseed. auto.
Qed.

Lemma newUUIDv7Bytes_deterministic_witness :
  seed genA = seed genB
  /\ (newUUIDv7Bytes 1 genA (Some 1700000000000) (Some 5)).1
     = (newUUIDv7Bytes 2 genB (Some 1700000000000) (Some 5)).1
  /\ (newUUIDv7Bytes 1 genA (Some 1700000000000) (Some 5)).2 = genA
  /\ (newUUIDv7Bytes 2 genB (Some 1700000000000) (Some 5)).2 = genB.
Proof.
  split; [reflexivity|].
  apply (newUUIDv7Bytes_deterministic 1 2 genA genB). reflexivity.
Defined.

(** Without [ts] the call reads the clock and advances the state. *)
Example newUUIDv7Bytes_advances :
  (newUUIDv7Bytes 1700000000000 genA None None).2
  = {| notBefore := 1700000000000; lastGenTS := 1700000000000;
       lastGenSeq := 1; seed := seed genA; privKey := privKey genA |}.
Proof. reflexivity. Qed.

End CodecFacts.



(** ** The live handler *)

Module HandlerFacts.
Import Num JS UUIDv7 Wire Server.

Section WithStore.

Context {State Task : Type}.
Variable reducer : State -> Value -> State.
Variable actionFilter :
  option (@MPServerActionFilterContext State -> Value -> Value * list Task).
Variable verifySigned : SerializedGenerationParams -> bool.
Variable atob : string -> list Z.

Implicit Types (clients : Clients) (context : @ReduxMPServerContext State Task)
  (self : Ref) (S : ReduxMPServerClientContext) (o : Oracle)
  (actionId : string) (actionData accepted verdict : Value)
  (tasks : list Task).

Local Abbreviation handler :=
  (processFromClient reducer actionFilter verifySigned atob).
Local Abbreviation filtered := (invokeFilter actionFilter).

Lemma handler_action o clients context self S actionId actionData :
  clients !! self = Some S ->
  handler o clients context self (Action actionId actionData)
  = processAction reducer actionFilter (v7uuid o) clients context self S
      actionId actionData.
Proof. intros Hself. unfold processFromClient. rewrite Hself. reflexivity. Qed.

(** The guard lets through what [typeof] calls an object. *)
Lemma guard_object actionData :
  typeof actionData = "object" ->
  negb (String.eqb "object" (typeof actionData)) = false.
Proof. intros ->. reflexivity. Qed.

Lemma guard_other actionData :
  typeof actionData <> "object" ->
  negb (String.eqb "object" (typeof actionData)) = true.
Proof.
  intros Hty. apply negb_true_iff, String.eqb_neq. congruence.
Qed.

(** The acceptance path, in one equation. *)
Lemma handler_accepts o clients context self S actionId actionData
    accepted tasks :
  clients !! self = Some S ->
  typeof actionData = "object" ->
  filtered context S actionData = (accepted, tasks) ->
  faultOf (filteredType accepted) = None ->
  handler o clients context self (Action actionId actionData)
  = let id := chooseId actionId (lastAction context) (v7uuid o) in
    {| clients' := clients;
       context' :=
         {| store := reducer (store context) accepted;
            socketToClient := socketToClient context;
            lastAction := lastAction context;
            scheduledQueue := (scheduledQueue context ++ tasks)%list |};
       sent :=
         (self,
          if negb (strictEq accepted actionData)
          then ReplaceAction actionId id accepted
          else if negb (String.eqb id actionId) then RenameId actionId id
          else AckAction actionId)
           :: fanOut clients S (socketToClient context)
                (ActionMsg accepted id) |}.
Proof.
  intros Hself Hty Hfilter Hfault.
  rewrite (handler_action _ _ _ _ S) by exact Hself.
  unfold processAction.
  rewrite guard_object by exact Hty.
  rewrite Hfilter, Hfault. reflexivity.
Qed.

(** The fault path, in one equation. *)
Lemma handler_faults o clients context self S actionId actionData
    verdict tasks respType :
  clients !! self = Some S ->
  typeof actionData = "object" ->
  filtered context S actionData = (verdict, tasks) ->
  faultOf (filteredType verdict) = Some respType ->
  handler o clients context self (Action actionId actionData)
  = {| clients' := clients;
       context' :=
         {| store := store context;
            socketToClient := socketToClient context;
            lastAction := lastAction context;
            scheduledQueue := (scheduledQueue context ++ tasks)%list |};
       sent :=
         [(self,
           Fault respType actionId
             (nullish (optGet verdict "message")
                (VString ("no extra message given for "
                          ++ respTypeName respType))))] |}.
Proof.
  intros Hself Hty Hfilter Hfault.
  rewrite (handler_action _ _ _ _ S) by exact Hself.
  unfold processAction.
  rewrite guard_object by exact Hty.
  rewrite Hfilter, Hfault. reflexivity.
Qed.

(** *** The verdict table *)

Lemma faultOf_some t respType :
  faultOf t = Some respType <-> t = VString (faultName respType).
Proof.
  unfold faultOf. split.
  - destruct t; simpl; try discriminate.
    repeat match goal with
           | |- context [String.eqb ?a ?b] =>
               destruct (String.eqb_spec a b); [subst|]
           end; intros [= <-]; reflexivity.
  - intros ->. destruct respType; reflexivity.
Qed.

Lemma filteredType_named name verdict :
  filteredType verdict = VString name <-> verdictNamed name verdict.
Proof.
  unfold filteredType, verdictNamed. split.
  - destruct verdict as [| | | |s|ref props| |]; simpl; try discriminate.
    + intros [= ->]. auto.
    + destruct (assoc "type" props) eqn:Hty; simpl; try discriminate.
      intros [= ->]. right. eauto.
  - intros [->|(ref & props & -> & Hty)]; simpl; [reflexivity|].
    rewrite Hty. reflexivity.
Qed.

Lemma fault_verdict verdict respType :
  faultOf (filteredType verdict) = Some respType
  <-> verdictNamed (faultName respType) verdict.
Proof. rewrite faultOf_some. apply filteredType_named. Qed.

(** *** Who is sent what by the loop over [socketToClient] *)

Lemma sentTo_cons r r' (m : ServerToClientMessage State) (l : list Sent) :
  sentTo r ((r', m) :: l)
  = if (r' =? r)%nat then m :: sentTo r l else sentTo r l.
Proof. unfold sentTo. simpl. destruct (r' =? r)%nat; reflexivity. Qed.

Lemma sentTo_app r (l1 l2 : list (@Sent State)) :
  sentTo r (l1 ++ l2) = (sentTo r l1 ++ sentTo r l2)%list.
Proof. unfold sentTo. rewrite List.filter_app, map_app. reflexivity. Qed.

Lemma fanOut_cons clients S e m (msg : ServerToClientMessage State) :
  fanOut clients S (e :: m) msg
  = (fanOut clients S [e] msg ++ fanOut clients S m msg)%list.
Proof. unfold fanOut. simpl. rewrite app_nil_r. reflexivity. Qed.

(** An entry of the map only ever writes to its own client. *)
Lemma fanOut_entry_other clients S e (msg : ServerToClientMessage State) r :
  e.2 <> r -> sentTo r (fanOut clients S [e] msg) = [].
Proof.
  intros Hne. unfold fanOut. simpl. rewrite app_nil_r.
  destruct (clients !! e.2) as [c|]; [|reflexivity].
  destruct (String.eqb _ _); [reflexivity|].
  rewrite sentTo_cons.
  destruct (Nat.eqb_spec e.2 r); [contradiction|reflexivity].
Qed.

Lemma fanOut_absent clients S m (msg : ServerToClientMessage State) r :
  r ∉ m.*2 -> sentTo r (fanOut clients S m msg) = [].
Proof.
  induction m as [|e m IH]; intros Hr; [reflexivity|].
  rewrite fmap_cons, not_elem_of_cons in Hr. destruct Hr as [Hne Hr].
  rewrite fanOut_cons, sentTo_app, IH by exact Hr.
  rewrite fanOut_entry_other by congruence. reflexivity.
Qed.

(** Nothing goes to a client that carries the sender's [autoClientId]. *)
Lemma fanOut_skips clients S m (msg : ServerToClientMessage State) r c :
  clients !! r = Some c ->
  autoClientId c = autoClientId S ->
  sentTo r (fanOut clients S m msg) = [].
Proof.
  intros Hr Hauto.
  induction m as [|e m IH]; [reflexivity|].
  rewrite fanOut_cons, sentTo_app, IH, app_nil_r.
  destruct (decide (e.2 = r)) as [He|He].
  - unfold fanOut. simpl. rewrite He, Hr, Hauto, String.eqb_refl. reflexivity.
  - apply fanOut_entry_other, He.
Qed.

(** Every other attached client is written to once. *)
Lemma fanOut_once clients S m (msg : ServerToClientMessage State) r c :
  NoDup m.*2 ->
  r ∈ m.*2 ->
  clients !! r = Some c ->
  autoClientId c <> autoClientId S ->
  sentTo r (fanOut clients S m msg) = [msg].
Proof.
  intros Hnodup Hin Hr Hauto.
  induction m as [|e m IH]; [by apply elem_of_nil in Hin|].
  rewrite fmap_cons in Hnodup, Hin.
  apply NoDup_cons in Hnodup as [Hfresh Hnodup].
  rewrite fanOut_cons, sentTo_app.
  destruct (decide (e.2 = r)) as [He|He].
  - rewrite (fanOut_absent _ _ m) by (rewrite <- He; exact Hfresh).
    unfold fanOut. simpl. rewrite He, Hr.
    apply String.eqb_neq in Hauto. rewrite Hauto. simpl.
    rewrite sentTo_cons, Nat.eqb_refl. reflexivity.
  - rewrite fanOut_entry_other by exact He.
    apply elem_of_cons in Hin as [Hin|Hin]; [congruence|].
    apply IH; assumption.
Qed.

(** *** Each client context is attached once

    The hypothesis of the counting statements below holds of every
    context the server builds: a context starts with no client,
    [connect] attaches the client context it has just created, and neither
    the handler nor [close] adds an entry. *)

Lemma mapSet_refs k v (m : list (Socket * Ref)) :
  NoDup m.*2 -> v ∉ m.*2 -> NoDup (mapSet k v m).*2.
Proof.
  induction m as [|[k' v'] m IH]; simpl; intros Hnodup Hv.
  - apply NoDup_singleton.
  - apply NoDup_cons in Hnodup as [Hv' Hnodup].
    apply not_elem_of_cons in Hv as [Hne Hv].
    destruct (k =? k')%nat; simpl.
    + apply NoDup_cons. auto.
    + apply NoDup_cons. split; [|auto].
      clear -Hv' Hne. induction m as [|[k'' v''] m IH]; simpl.
      * apply not_elem_of_cons. split; [congruence|apply not_elem_of_nil].
      * simpl in Hv'. apply not_elem_of_cons in Hv' as [Hne' Hv'].
        destruct (k =? k'')%nat; simpl;
          apply not_elem_of_cons; split; auto.
Qed.

Lemma mapDelete_refs k (m : list (Socket * Ref)) :
  NoDup m.*2 -> NoDup (mapDelete k m).*2.
Proof.
  induction m as [|[k' v'] m IH]; simpl; intros Hnodup; [exact Hnodup|].
  apply NoDup_cons in Hnodup as [Hv' Hnodup].
  destruct (negb (k =? k')%nat); simpl; [|auto].
  apply NoDup_cons. split; [|auto].
  intros Hin. apply Hv'. clear -Hin.
  induction m as [|[k'' v''] m IH]; simpl in *; [exact Hin|].
  destruct (negb (k =? k'')%nat); simpl in *.
  - apply elem_of_cons in Hin as [->|Hin]; [left|right; auto].
  - right. auto.
Qed.

Lemma attach_once autoId key sock clients context :
  NoDup (socketToClient context).*2 ->
  (forall r, r ∈ (socketToClient context).*2 -> is_Some (clients !! r)) ->
  let opened := openSession autoId key sock clients in
  NoDup (socketToClient (attach opened.1 sock context)).*2.
Proof.
  intros Hnodup Hheld. simpl. apply mapSet_refs; [exact Hnodup|].
  intros Hin. apply Hheld in Hin.
  apply (is_fresh (dom clients)). apply elem_of_dom. exact Hin.
Qed.

Lemma close_once context S :
  NoDup (socketToClient context).*2 ->
  NoDup (socketToClient (close context S)).*2.
Proof. apply mapDelete_refs. Qed.

Lemma handler_keeps_clients o clients context self msg :
  socketToClient (context' (handler o clients context self msg))
  = socketToClient context.
Proof.
  unfold processFromClient.
  destruct (clients !! self) as [S|]; [|reflexivity].
  destruct msg as [lastSeen cid params|actionId actionData]; [reflexivity|].
  unfold processAction.
  destruct (negb _); [reflexivity|].
  destruct (invokeFilter _ _ _ _) as [accepted tasks].
  destruct (faultOf _); reflexivity.
Qed.

(** *** What [connect] leaves on the session *)

Lemma handler_connect o clients context self S lastSeen cid params :
  clients !! self = Some S ->
  let out := handler o clients context self (Connect lastSeen cid params) in
  exists issued S',
    sent out
    = [(self,
        Connected (store context)
          (default (autoClientId S) (clientId S')) issued)]
    /\ clients' out !! self = Some S'
    /\ uuidParams S' = Some issued
    /\ uuidGenState S' = Some (signedInfoToUuid7GenParams atob issued)
    /\ autoClientId S' = autoClientId S
    /\ context' out = context.
Proof.
  intros Hself. simpl. unfold processFromClient. rewrite Hself.
  unfold processConnect. simpl.
  eexists _, _. rewrite lookup_insert_eq.
  repeat split; reflexivity.
Qed.

(** *** The handler never assigns [lastAction] *)

Lemma handler_keeps_lastAction o clients context self msg :
  lastAction (context' (handler o clients context self msg))
  = lastAction context.
Proof.
  unfold processFromClient.
  destruct (clients !! self) as [S|]; [|reflexivity].
  destruct msg as [lastSeen cid params|actionId actionData]; [reflexivity|].
  unfold processAction.
  destruct (negb _); [reflexivity|].
  destruct (invokeFilter _ _ _ _) as [accepted tasks].
  destruct (faultOf _); reflexivity.
Qed.

Lemma deliver_keeps_lastAction arrivals
    (st : Clients * @ReduxMPServerContext State Task) :
  lastAction (deliver reducer actionFilter verifySigned atob st arrivals).2
  = lastAction st.2.
Proof.
  revert st.
  induction arrivals as [|a arrivals IH]; intros st; [reflexivity|].
  change (deliver reducer actionFilter verifySigned atob st (a :: arrivals))
    with (deliver reducer actionFilter verifySigned atob
            (let out := handler a.1.1 st.1 st.2 a.1.2 a.2 in
             (clients' out, context' out)) arrivals).
  rewrite IH. apply handler_keeps_lastAction.
Qed.

(** C1 (code defect): for every action message that reaches the
    acceptance path on a live session, the state after the dispatch is
    [reducer(previous state, accepted action)], as the claim has it, but
    [lastAction] is not the chosen id: it is what it was. The handler
    compares every incoming id with [lastAction] to replace the ones that
    are too old and never assigns the field, so through every later
    message of the context it still holds the identifier minted when the
    context was created. *)
Theorem accepted_action_effect o clients context self S actionId actionData
    accepted tasks :
  clients !! self = Some S ->
  typeof actionData = "object" ->
  filtered context S actionData = (accepted, tasks) ->
  faultOf (filteredType accepted) = None ->
  let out := handler o clients context self (Action actionId actionData) in
  store (context' out) = reducer (store context) accepted
  /\ lastAction (context' out) = lastAction context
  /\ forall arrivals,
       lastAction
         (deliver reducer actionFilter verifySigned atob
            (clients' out, context' out) arrivals).2
       = lastAction context.
Proof.
  intros Hself Hty Hfilter Hfault out. subst out.
  split; [|split].
  - rewrite (handler_accepts _ _ _ _ S _ _ accepted tasks) by assumption.
    reflexivity.
  - apply handler_keeps_lastAction.
  - intros arrivals. rewrite deliver_keeps_lastAction.
    apply handler_keeps_lastAction.
Qed.

(** C4: for every accepted action, the sender is handed exactly one
    message, [replaceAction] when the filter returned another object than
    [actionData], otherwise [renameId] when the chosen id differs from the
    client's, otherwise [ackAction]; and every client of [socketToClient]
    whose [autoClientId] differs from the sender's is handed exactly one
    message, [{action, action: accepted, id}] with the chosen id. Each
    client context is attached to the map once. *)
Theorem accepted_action_messages o clients context self S actionId actionData
    accepted tasks :
  clients !! self = Some S ->
  typeof actionData = "object" ->
  filtered context S actionData = (accepted, tasks) ->
  faultOf (filteredType accepted) = None ->
  NoDup (socketToClient context).*2 ->
  let id := chooseId actionId (lastAction context) (v7uuid o) in
  let out := handler o clients context self (Action actionId actionData) in
  sentTo self (sent out)
  = [ if negb (strictEq accepted actionData)
      then ReplaceAction actionId id accepted
      else if negb (String.eqb id actionId) then RenameId actionId id
      else AckAction actionId ]
  /\ forall r c,
       r ∈ (socketToClient context).*2 ->
       clients !! r = Some c ->
       autoClientId c <> autoClientId S ->
       sentTo r (sent out) = [ActionMsg accepted id].
Proof.
  intros Hself Hty Hfilter Hfault Hnodup id out. subst out.
  rewrite (handler_accepts _ _ _ _ S _ _ accepted tasks) by assumption.
  cbv zeta. simpl sent. split.
  - rewrite sentTo_cons, Nat.eqb_refl.
    rewrite (fanOut_skips _ _ _ _ self S) by auto. reflexivity.
  - intros r c Hin Hr Hauto.
    rewrite sentTo_cons.
    destruct (Nat.eqb_spec self r) as [<-|_]; [congruence|].
    apply (fanOut_once _ _ _ _ r c); assumption.
Qed.

(** C6: when the filter's verdict is ["reject"], ["needAuth"] or
    ["badAuth"], as a string or as the [type] of a fault object, the
    only message of the call is the matching [rejectAction],
    [needAuthentication] or [badAuthorization] to the sender, carrying the
    client's [actionId] and the verdict's [message] field or, when that is
    missing, [no extra message given for <respType>]; the state, the
    attached clients and [lastAction] are as before. *)
Theorem fault_verdict_response o clients context self S actionId actionData
    verdict tasks respType :
  clients !! self = Some S ->
  typeof actionData = "object" ->
  filtered context S actionData = (verdict, tasks) ->
  verdictNamed (faultName respType) verdict ->
  let out := handler o clients context self (Action actionId actionData) in
  sent out
  = [(self,
      Fault respType actionId
        (match optGet verdict "message" with
         | VUndefined | VNull =>
             VString ("no extra message given for " ++ respTypeName respType)
         | message => message
         end))]
  /\ store (context' out) = store context
  /\ lastAction (context' out) = lastAction context
  /\ socketToClient (context' out) = socketToClient context
  /\ clients' out = clients
  /\ forall r, r <> self -> sentTo r (sent out) = [].
Proof.
  intros Hself Hty Hfilter Hverdict out. subst out.
  apply fault_verdict in Hverdict.
  rewrite (handler_faults _ _ _ _ S _ _ verdict tasks respType)
    by assumption.
  simpl. repeat split.
  - unfold nullish. destruct (optGet verdict "message"); reflexivity.
  - intros r Hr. rewrite sentTo_cons.
    destruct (Nat.eqb_spec self r); [congruence|reflexivity].
Qed.

(** What the guard does drop: everything [typeof] does not call an
    object. *)
Lemma non_object_dropped o clients context self actionId actionData :
  typeof actionData <> "object" ->
  handler o clients context self (Action actionId actionData)
  = {| clients' := clients; context' := context; sent := [] |}.
Proof.
  intros Hty. unfold processFromClient.
  destruct (clients !! self); [|reflexivity].
  unfold processAction. rewrite guard_other by exact Hty. reflexivity.
Qed.

(** C8 (code defect): [null] is not dropped. [typeof null] is ["object"],
    so the message goes on to the filter, and whatever the filter and the
    reducer are, the sender is handed a message: a fault response, or the
    reply to an accepted action. *)
Theorem null_action_answered o clients context self S actionId :
  clients !! self = Some S ->
  exists m,
    sentTo self (sent (handler o clients context self (Action actionId VNull)))
    = [m].
Proof.
  intros Hself.
  destruct (filtered context S VNull) as [verdict tasks] eqn:Hfilter.
  destruct (faultOf (filteredType verdict)) as [respType|] eqn:Hfault.
  - rewrite (handler_faults _ _ _ _ S _ _ verdict tasks respType)
      by (assumption || reflexivity).
    simpl. rewrite sentTo_cons, Nat.eqb_refl. eauto.
  - rewrite (handler_accepts _ _ _ _ S _ _ verdict tasks)
      by (assumption || reflexivity).
    cbv zeta. simpl sent. rewrite sentTo_cons, Nat.eqb_refl.
    rewrite (fanOut_skips _ _ _ _ self S) by auto. eauto.
Qed.

(** A promise returned by the filter is not awaited and has no [type], so
    it is no fault verdict: the promise itself is what the handler passes
    to [store.dispatch], as another object than [actionData]. What the
    store of the redux library does with an action that is no plain object
    is not decided by [src/]. *)
Lemma promise_reaches_dispatch ref actionData :
  actionData <> VPromise ref ->
  faultOf (filteredType (VPromise ref)) = None
  /\ strictEq (VPromise ref) actionData = false.
Proof.
  intros Hother. split; [reflexivity|].
  destruct actionData as [| | | | | |ref'|]; try reflexivity.
  simpl. apply Nat.eqb_neq. congruence.
Qed.

End WithStore.

(** C5 (amended): the chosen id is [next] when [actionId] is strictly
    below [lastAction] or strictly above [next] in the order of the
    strings, and the client's [actionId] otherwise; an [actionId] equal to
    [lastAction] is not stale and is kept unless it is above [next]. *)
Theorem chooseId_policy actionId lastAction next :
  chooseId actionId lastAction next
  = match String.compare actionId lastAction,
          String.compare actionId next with
    | Lt, _ => next
    | _, Gt => next
    | _, _ => actionId
    end.
Proof.
  unfold chooseId, String.ltb.
  rewrite (String.compare_antisym actionId next).
  destruct (String.compare actionId lastAction),
           (String.compare next actionId); reflexivity.
Qed.

End HandlerFacts.

(** ** The registry *)

Module RegistryFacts.
Import Num JS UUIDv7 Wire Server Scenario.

Section WithStore.

Context {State Task : Type}.
Variable truthy : State -> bool.

Implicit Types (r : @Registry State Task) (p : Ref) (key : string).

(** A pending promise whose creator is no longer suspended at [hydrate]
    stays pending: no later call holds its [resolvePending]. *)
Lemma step_keeps_orphan r e p :
  promises r !! p = Some Pending ->
  hydrating r !! p = None ->
  promises (step truthy r e) !! p = Some Pending
  /\ hydrating (step truthy r e) !! p = None.
Proof.
  intros Hp Hh. destruct e as [key|p' h v7]; simpl.
  - unfold createContextEnter.
    destruct (pendings r !! key); [auto|]. simpl.
    assert (fresh (dom (promises r)) <> p) as Hne.
    { intros Heq. apply (is_fresh (dom (promises r))).
      rewrite Heq. apply elem_of_dom. eauto. }
    rewrite !lookup_insert_ne by exact Hne. auto.
  - destruct (hydrating r !! p') as [key|] eqn:Hp'; [|auto].
    assert (p' <> p) as Hne by congruence.
    unfold createContextResume.
    destruct h as [[d|]|reason]; [destruct (truthy d)| |]; simpl;
      rewrite ?lookup_insert_ne, ?lookup_delete_ne by exact Hne; auto.
Qed.

Lemma run_keeps_orphan es r p :
  promises r !! p = Some Pending ->
  hydrating r !! p = None ->
  promises (run truthy r es) !! p = Some Pending.
Proof.
  revert r. induction es as [|e es IH]; intros r Hp Hh; [exact Hp|].
  destruct (step_keeps_orphan r e p Hp Hh) as [Hp' Hh'].
  exact (IH _ Hp' Hh').
Qed.

(** The two other ends of [createContext] settle the promise. *)
Lemma hydrate_data_resolves r p key d v7 :
  hydrating r !! p = Some key ->
  truthy d = true ->
  let r' := step truthy r (Settle p (Returned (Some d)) v7) in
  promises r' !! p = Some (Resolved (Some key))
  /\ pendings r' !! key = None
  /\ contexts r' !! key
     = Some {| store := d; socketToClient := []; lastAction := v7;
               scheduledQueue := [] |}.
Proof.
  intros Hh Hd. simpl. rewrite Hh. unfold createContextResume.
  rewrite Hd. simpl.
  rewrite !lookup_insert_eq, lookup_delete_eq. auto.
Qed.

Lemma hydrate_throw_rejects r p key reason v7 :
  hydrating r !! p = Some key ->
  let r' := step truthy r (Settle p (Thrown reason) v7) in
  promises r' !! p = Some (Rejected reason) /\ pendings r' !! key = None.
Proof.
  intros Hh. simpl. rewrite Hh. unfold createContextResume. simpl.
  rewrite lookup_insert_eq, lookup_delete_eq. auto.
Qed.

(** C7 (code defect): when [hydrate] returns [null], [createContext]
    returns [null] to its own caller and removes the key from [pendings],
    and no context is stored, but the promise it installed is not
    resolved: it is still pending, and stays pending through whatever the
    registry does afterwards, so a caller suspended at [await pending]
    never obtains anything. *)
Theorem hydrate_nil_leaves_pending r p key v7 :
  hydrating r !! p = Some key ->
  promises r !! p = Some Pending ->
  let r' := step truthy r (Settle p (Returned None) v7) in
  (createContextResume truthy v7 key p (Returned None) r).2 = CreatedNull
  /\ pendings r' !! key = None
  /\ contexts r' = contexts r
  /\ promises r' !! p = Some Pending
  /\ forall es, awaited (run truthy r' es) p = None.
Proof.
  intros Hh Hp. simpl. rewrite Hh. unfold createContextResume. simpl.
  rewrite lookup_delete_eq. repeat split; try exact Hp.
  intros es. unfold awaited.
  rewrite (run_keeps_orphan es _ p); [reflexivity|exact Hp|].
  simpl. apply lookup_delete_eq.
Qed.

(** After that, the key is free again: the next call of [createContext]
    calls [hydrate] once more. *)
Lemma hydrate_nil_retries r p key v7 :
  hydrating r !! p = Some key ->
  let r' := step truthy r (Settle p (Returned None) v7) in
  exists p',
    (createContextEnter key r').2 = AwaitHydrate p'
    /\ hydrateCalls (createContextEnter key r').1
       = (hydrateCalls r ++ [key])%list.
Proof.
  intros Hh. simpl. rewrite Hh. unfold createContextResume. simpl.
  unfold createContextEnter. simpl. rewrite lookup_delete_eq. simpl. eauto.
Qed.

End WithStore.

Example ghost_second_caller_waits :
  (createContextEnter "room/ghost" (step anyState cold (Call "room/ghost"))).2
  = AwaitPending 0%nat.
Proof. vm_compute. reflexivity. Qed.

Example ghost_never_answered :
  let r := run anyState cold ghost in
  promises r !! 0%nat = Some Pending
  /\ pendings r !! "room/ghost" = None
  /\ hydrateCalls r = ["room/ghost"].
Proof. vm_compute. auto. Qed.

Lemma hydrate_nil_leaves_pending_witness :
  let r := run anyState cold [Call "room/ghost"; Call "room/ghost"] in
  hydrating r !! 0%nat = Some "room/ghost"
  /\ promises r !! 0%nat = Some Pending
  /\ forall es,
       awaited
         (run anyState (step anyState r (Settle 0%nat (Returned None) "v7"))
            es) 0%nat
       = None.
Proof.
  intros r.
  assert (Hh : hydrating r !! 0%nat = Some "room/ghost")
    by (vm_compute; reflexivity).
  assert (Hp : promises r !! 0%nat = Some Pending)
    by (vm_compute; reflexivity).
  split; [exact Hh|]. split; [exact Hp|].
  apply (hydrate_nil_leaves_pending anyState r 0%nat "room/ghost" "v7" Hh Hp).
Defined.

End RegistryFacts.

(** ** The scenarios of the specification, on the counter *)

Module ScenarioFacts.
Import Num JS UUIDv7 Wire Server Scenario.

Lemma alice_live : sessions !! alice = Some aliceSession.
Proof. vm_compute. reflexivity. Qed.

Lemma room_attached_once : NoDup (socketToClient room).*2.
Proof. compute_done. Qed.

(** S1: a first action, not rewritten. The state and the messages are
    the specification's; [lastAction] is not. *)
Example first_action :
  let out := handle noFilter (Action firstId (inc 5)) in
  store (context' out) = 1
  /\ sent out
     = [ (alice, AckAction firstId);
         (bob, ActionMsg (inc 5) firstId);
         (carol, ActionMsg (inc 5) firstId) ]
  /\ lastAction (context' out) = "018e0000-0000-7000-8000-000000000000".
Proof. vm_compute. auto. Qed.

(** S2: a stale id is replaced. *)
Example stale_action :
  sent (handle noFilter (Action staleId (inc 5)))
  = [ (alice, RenameId staleId (v7uuid oracle));
      (bob, ActionMsg (inc 5) (v7uuid oracle));
      (carol, ActionMsg (inc 5) (v7uuid oracle)) ].
Proof. vm_compute. reflexivity. Qed.

(** S4: the filter rejects. *)
Example rejected_action :
  let out := handle rejecting (Action firstId (inc 5)) in
  sent out
  = [ (alice,
       Fault rejectAction firstId
         (VString "no extra message given for rejectAction")) ]
  /\ store (context' out) = 0.
Proof. vm_compute. auto. Qed.

(** C1 fails on the first action of the scenario: the state is the
    reducer's, but [lastAction] is not the chosen id. *)
Lemma lastAction_left_counterexample :
  let out := handle noFilter (Action firstId (inc 5)) in
  ~ (store (context' out) = counter (store room) (inc 5)
     /\ lastAction (context' out)
        = chooseId firstId (lastAction room) (v7uuid oracle)).
Proof. vm_compute. intros [_ H]. discriminate H. Qed.

Lemma accepted_action_effect_witness :
  let out := handle noFilter (Action firstId (inc 5)) in
  sessions !! alice = Some aliceSession
  /\ typeof (inc 5) = "object"
  /\ invokeFilter noFilter room aliceSession (inc 5) = (inc 5, [])
  /\ faultOf (filteredType (inc 5)) = None
  /\ store (context' out) = counter (store room) (inc 5)
  /\ lastAction (context' out) = lastAction room.
Proof.
  intros out.
  destruct (HandlerFacts.accepted_action_effect counter noFilter
              (fun _ => true) (fun _ => replicate 80 0) oracle sessions room
              alice aliceSession firstId (inc 5) (inc 5) []
              alice_live eq_refl eq_refl eq_refl) as (Hstore & Hlast & _).
  split; [exact alice_live|].
  split; [reflexivity|]. split; [reflexivity|]. split; [reflexivity|].
  split; [exact Hstore|exact Hlast].
Defined.

Lemma accepted_action_messages_witness :
  let out := handle noFilter (Action firstId (inc 5)) in
  sessions !! alice = Some aliceSession
  /\ NoDup (socketToClient room).*2
  /\ sentTo alice (sent out) = [AckAction firstId]
  /\ sentTo bob (sent out) = [ActionMsg (inc 5) firstId].
Proof.
  intros out.
  destruct (HandlerFacts.accepted_action_messages counter noFilter
              (fun _ => true) (fun _ => replicate 80 0) oracle sessions room
              alice aliceSession firstId (inc 5) (inc 5) []
              alice_live eq_refl eq_refl eq_refl room_attached_once)
    as (Hself & Hothers).
  split; [exact alice_live|]. split; [exact room_attached_once|].
  split; [exact Hself|].
  apply (Hothers bob (session "018e0000-0000-7000-8000-00000000000b" 11%nat)).
  - compute_done.
  - vm_compute. reflexivity.
  - discriminate.
Defined.

(** C5, as stated, fails when the client's id equals [lastAction]: the
    claim has it replaced by [next], the handler keeps it. *)
Lemma equal_id_kept_counterexample :
  ~ (chooseId firstId firstId (v7uuid oracle) = v7uuid oracle).
Proof. vm_compute. discriminate. Qed.

Lemma fault_verdict_response_witness :
  let out := handle rejecting (Action firstId (inc 5)) in
  sessions !! alice = Some aliceSession
  /\ verdictNamed (faultName rejectAction) (VString "reject")
  /\ sent out
     = [ (alice,
          Fault rejectAction firstId
            (VString "no extra message given for rejectAction")) ]
  /\ store (context' out) = store room
  /\ lastAction (context' out) = lastAction room.
Proof.
  intros out.
  assert (Hverdict : verdictNamed (faultName rejectAction) (VString "reject"))
    by (left; reflexivity).
  destruct (HandlerFacts.fault_verdict_response counter rejecting
              (fun _ => true) (fun _ => replicate 80 0) oracle sessions room
              alice aliceSession firstId (inc 5) (VString "reject") []
              rejectAction alice_live eq_refl eq_refl Hverdict)
    as (Hsent & Hstore & Hlast & _).
  split; [exact alice_live|]. split; [exact Hverdict|].
  split; [exact Hsent|]. split; [exact Hstore|exact Hlast].
Defined.

(** The message of a fault object is passed on. *)
Example fault_object_message :
  sent (processFromClient counter
          (Some (fun _ _ =>
                   (VObject 9 [("type", VString "badAuth");
                               ("message", VString "not yours")],
                    [] : list unit)))
          (fun _ => true) (fun _ => replicate 80 0) oracle sessions room alice
          (Action firstId (inc 5)))
  = [(alice, Fault badAuthorization firstId (VString "not yours"))].
Proof. vm_compute. reflexivity. Qed.

(** C8 fails on [null] whatever the filter: without one the action is
    acknowledged and sent on, with the rejecting one it is rejected. *)
Example null_is_acknowledged :
  sent (handle noFilter (Action firstId VNull))
  = [ (alice, AckAction firstId);
      (bob, ActionMsg VNull firstId);
      (carol, ActionMsg VNull firstId) ].
Proof. vm_compute. reflexivity. Qed.

Example null_is_rejected :
  sent (handle rejecting (Action firstId VNull))
  = [ (alice,
       Fault rejectAction firstId
         (VString "no extra message given for rejectAction")) ].
Proof. vm_compute. reflexivity. Qed.

Example string_is_dropped :
  handle noFilter (Action firstId (VString "inc"))
  = {| clients' := sessions; context' := room; sent := [] |}.
Proof. vm_compute. reflexivity. Qed.

Lemma null_action_answered_witness :
  sessions !! alice = Some aliceSession
  /\ exists m,
       sentTo alice (sent (handle rejecting (Action firstId VNull))) = [m].
Proof.
  split; [exact alice_live|].
  apply (HandlerFacts.null_action_answered counter rejecting (fun _ => true)
           (fun _ => replicate 80 0) oracle sessions room alice aliceSession
           firstId alice_live).
Defined.

(** An id older than the last accepted one is kept: the first action is
    accepted under [firstId], the second under an id below it, and both
    are acknowledged and fanned out under the ids they came with, since
    [lastAction] still holds the id the context was created with. *)
Example older_id_kept_after_newer :
  let olderId := "018e0000-0000-7000-8000-000000000001" in
  let end_ :=
    deliverLog counter noFilter (fun _ => true) (fun _ => replicate 80 0)
      (sessions, room)
      [ (oracle, alice, Action firstId (inc 5));
        (oracle, alice, Action olderId (inc 6)) ] in
  String.ltb olderId firstId = true
  /\ sentTo alice end_.2 = [AckAction firstId; AckAction olderId]
  /\ sentTo bob end_.2
     = [ActionMsg (inc 5) firstId; ActionMsg (inc 6) olderId]
  /\ store end_.1.2 = 2
  /\ lastAction end_.1.2 = lastAction room.
Proof. vm_compute. auto. Qed.

End ScenarioFacts.

(** ** Minting and reading identifiers *)

Module MintFacts.
Import Num UUIDv7 ServerUUIDv7 Scenario.

(** A property checked on every number below a bound holds of each. *)
Lemma below_forallb (f : Z -> bool) (n : nat) :
  forallb f (map Z.of_nat (seq 0 n)) = true ->
  forall m, 0 <= m < Z.of_nat n -> f m = true.
Proof.
  intros Hall m Hm. rewrite forallb_forall in Hall. apply Hall.
  apply in_map_iff. exists (Z.to_nat m). split; [lia|].
  apply in_seq. lia.
Qed.

Lemma land_low_bound x k : 0 <= k -> 0 <= Z.land x (Z.ones k) < 2 ^ k.
Proof. intros Hk. rewrite Z.land_ones by lia. apply Z.mod_pos_bound. lia. Qed.

Lemma u8_byte x : 0 <= x < 256 -> u8 x = x.
Proof. intros Hx. unfold u8. apply Z.mod_small. exact Hx. Qed.

Lemma u8_range x : 0 <= u8 x < 256.
Proof. unfold u8. apply Z.mod_pos_bound. lia. Qed.

Lemma tsByte_digit ts i :
  0 <= ts -> tsByte ts i = (ts / 256 ^ Z.of_nat (5 - i)) mod 256.
Proof.
  intros Hts. unfold tsByte.
  rewrite Z.quot_div_nonneg by lia.
  rewrite Z.land_comm. change 255 with (Z.ones 8).
  rewrite Z.land_ones by lia. reflexivity.
Qed.

Lemma tsByte_range ts i : 0 <= tsByte ts i < 256.
Proof.
  unfold tsByte. rewrite Z.land_comm. change 255 with (Z.ones 8).
  apply (land_low_bound _ 8). lia.
Qed.

(** The six digits of a timestamp in base 256 add up to it. *)
Lemma timestamp_digits ts :
  0 <= ts ->
  ((((tsByte ts 0 * 256 + tsByte ts 1) * 256 + tsByte ts 2) * 256
    + tsByte ts 3) * 256 + tsByte ts 4) * 256 + tsByte ts 5
  = ts mod 2 ^ 48.
Proof.
  intros Hts. rewrite !tsByte_digit by exact Hts.
  cbn [Nat.sub Z.of_nat Pos.of_succ_nat Pos.succ].
  change (256 ^ 5) with 1099511627776. change (256 ^ 4) with 4294967296.
  change (256 ^ 3) with 16777216. change (256 ^ 2) with 65536.
  change (256 ^ 1) with 256. change (256 ^ 0) with 1.
  change (2 ^ 48) with 281474976710656.
  Z.to_euclidean_division_equations. lia.
Qed.

Lemma sha256_length data : length (Sha256.sha256 data) = 32%nat.
Proof. reflexivity. Qed.

Lemma sha256_bytes data : is_bytes (Sha256.sha256 data).
Proof.
  unfold Sha256.sha256, is_bytes. cbn [flat_map Sha256.wordBytes app].
  repeat (apply List.Forall_cons; [apply u8_range|]). constructor.
Qed.

(** What the timestamp loop leaves in an array of six bytes or more. *)
Lemma writeTimestamp_shape ts a :
  (6 <= length a)%nat ->
  writeTimestamp ts a
  = ([tsByte ts 0; tsByte ts 1; tsByte ts 2; tsByte ts 3; tsByte ts 4;
      tsByte ts 5] ++ drop 6 a)%list.
Proof.
  intros Hlen.
  do 6 (destruct a as [|? a]; [simpl in Hlen; lia|]).
  unfold writeTimestamp, store. cbn -[tsByte u8].
  rewrite !u8_byte by apply tsByte_range. reflexivity.
Qed.

Lemma initBytes_writeTimestamp random timeStamp :
  initBytes random timeStamp = writeTimestamp timeStamp random.
Proof. reflexivity. Qed.

(** The sixteen bytes [newUUIDv7Bytes] returns: the timestamp, the
    version nibble over the sequence number, the variant bits over six
    bits of the digest, and seven bytes of the digest. *)
Lemma buildUUID_shape seed ts seqNo :
  exists d8 d9 d10 d11 d12 d13 d14 d15,
    Forall (fun b => 0 <= b < 256) [d8; d9; d10; d11; d12; d13; d14; d15]
    /\ buildUUID seed ts seqNo
       = [tsByte ts 0; tsByte ts 1; tsByte ts 2; tsByte ts 3; tsByte ts 4;
          tsByte ts 5;
          0x70 + Z.land (Z.shiftr seqNo 8) 0xf;
          Z.land seqNo 0xff;
          0x80 + Z.land d8 0x3f;
          d9; d10; d11; d12; d13; d14; d15].
Proof.
  unfold buildUUID.
  set (seedBytes := store (store (writeTimestamp ts seed) 6 _) 7 _).
  pose proof (sha256_length seedBytes) as Hlen.
  pose proof (sha256_bytes seedBytes) as Hbytes.
  destruct (Sha256.sha256 seedBytes) as [|d0 digest]; [discriminate|].
  do 15 (destruct digest as [|? digest]; [discriminate|]).
  unfold is_bytes in Hbytes.
  repeat match goal with
         | H : Forall _ (_ :: _) |- _ => apply Forall_cons in H as [? H]
         end.
  cbn [take]. rewrite writeTimestamp_shape by (simpl; lia).
  cbn [drop app]. unfold store, load. cbn -[u8 tsByte Z.land Z.lor Z.shiftr].
  match goal with
  | |- context [Z.lor 112 ?n] =>
      assert (Hv : u8 (Z.lor 112 n) = 112 + n)
  end.
  { pose proof (land_low_bound (Z.shiftr seqNo 8) 4 ltac:(lia)) as Hn.
    change (Z.ones 4) with 15 in Hn. change (2 ^ 4) with 16 in Hn.
    revert Hn. generalize (Z.land (Z.shiftr seqNo 8) 15). intros n Hn.
    apply Z.eqb_eq.
    apply (below_forallb (fun n => u8 (Z.lor 112 n) =? 112 + n) 16);
      [vm_compute; reflexivity|exact Hn]. }
  match goal with
  | |- context [Z.lor 128 ?n] =>
      assert (Hr : u8 (Z.lor 128 n) = 128 + n)
  end.
  { match goal with
    | |- context [Z.land ?d 63] =>
        pose proof (land_low_bound d 6 ltac:(lia)) as Hn;
        change (Z.ones 6) with 63 in Hn; change (2 ^ 6) with 64 in Hn;
        revert Hn; generalize (Z.land d 63)
    end.
    intros n Hn. apply Z.eqb_eq.
    apply (below_forallb (fun n => u8 (Z.lor 128 n) =? 128 + n) 64);
      [vm_compute; reflexivity|exact Hn]. }
  rewrite Hv, Hr.
  assert (Hs : u8 (Z.land seqNo 255) = Z.land seqNo 255).
  { apply u8_byte. pose proof (land_low_bound seqNo 8 ltac:(lia)) as Hn.
    exact Hn. }
  rewrite Hs.
  eexists _, _, _, _, _, _, _, _. split; [|reflexivity].
  repeat (apply Forall_cons; split; [assumption|]). constructor.
Qed.

Lemma version_nibble n : 0 <= n < 16 ->
  Z.land (0x70 + n) 0xf0 = 0x70 /\ Z.land (0x70 + n) 0xf = n.
Proof.
  intros Hn. split; apply Z.eqb_eq.
  - apply (below_forallb (fun n => Z.land (0x70 + n) 0xf0 =? 0x70) 16);
      [vm_compute; reflexivity|exact Hn].
  - apply (below_forallb (fun n => Z.land (0x70 + n) 0xf =? n) 16);
      [vm_compute; reflexivity|exact Hn].
Qed.

Lemma variant_bits n : 0 <= n < 64 -> Z.land (0x80 + n) 0xc0 = 0x80.
Proof.
  intros Hn. apply Z.eqb_eq.
  apply (below_forallb (fun n => Z.land (0x80 + n) 0xc0 =? 0x80) 64);
    [vm_compute; reflexivity|exact Hn].
Qed.

Lemma seq_high_nibble seqNo : 0 <= Z.land (Z.shiftr seqNo 8) 0xf < 16.
Proof. apply (land_low_bound _ 4). lia. Qed.

(** X1: whatever the generator state, the clock, [ts] and [seq], the
    sixteen bytes [newUUIDv7Bytes] returns are bytes and pass [isUUIDv7]:
    the version nibble is 7 and the variant bits are 10. *)
Theorem minted_is_version7 now gp ts seqNo :
  let uuid := (newUUIDv7Bytes now gp ts seqNo).1 in
  length uuid = 16%nat /\ is_bytes uuid /\ isUUIDv7 uuid = true.
Proof.
  assert (Hshape : forall seed t q,
             let uuid := buildUUID seed t q in
             length uuid = 16%nat /\ is_bytes uuid /\ isUUIDv7 uuid = true).
  { intros seed t q.
    destruct (buildUUID_shape seed t q)
      as (d8 & d9 & d10 & d11 & d12 & d13 & d14 & d15 & Hd & ->).
    repeat match goal with
           | H : Forall _ (_ :: _) |- _ => apply Forall_cons in H as [? H]
           end.
    pose proof (seq_high_nibble q) as Hq.
    pose proof (land_low_bound d8 6 ltac:(lia)) as Hv.
    change (Z.ones 6) with 0x3f in Hv. change (2 ^ 6) with 64 in Hv.
    pose proof (land_low_bound q 8 ltac:(lia)) as Hl.
    change (Z.ones 8) with 0xff in Hl. change (2 ^ 8) with 256 in Hl.
    cbv zeta. split; [reflexivity|]. split.
    - unfold is_bytes.
      repeat (apply Forall_cons; split;
              [first [apply tsByte_range | assumption | lia]|]).
      constructor.
    - unfold isUUIDv7, load.
      cbn [length lookup list_lookup default from_option id].
      destruct (version_nibble _ Hq) as [-> _].
      rewrite (variant_bits _ Hv). reflexivity. }
  destruct ts as [t|]; unfold newUUIDv7Bytes.
  - apply Hshape.
  - destruct (nextTimestamp now gp) as [t gp']. apply Hshape.
Qed.

(** X2: the timestamp read back from an identifier minted at a supplied
    [ts >= 0] is [ts] modulo 2^48: [ts] itself below 2^48, wrapped above. *)
Theorem minted_timestamp now gp ts seqNo :
  0 <= ts ->
  getUUIDv7Timestamp (newUUIDv7Bytes now gp (Some ts) seqNo).1
  = ts mod 2 ^ 48.
Proof.
  intros Hts. unfold newUUIDv7Bytes. cbn [fst].
  destruct (buildUUID_shape (seed gp) ts (default 0 seqNo))
    as (d8 & d9 & d10 & d11 & d12 & d13 & d14 & d15 & _ & ->).
  unfold getUUIDv7Timestamp, load.
  cbn [fold_left seq lookup list_lookup default from_option id].
  rewrite Z.mul_0_l, Z.add_0_l. apply timestamp_digits, Hts.
Qed.

Lemma minted_timestamp_witness :
  0 <= 2 ^ 48 + 1700000000000
  /\ getUUIDv7Timestamp
       (newUUIDv7Bytes 0 genA (Some (2 ^ 48 + 1700000000000)) (Some 5)).1
     = 1700000000000.
Proof.
  split; [lia|].
  rewrite (minted_timestamp 0 genA (2 ^ 48 + 1700000000000) (Some 5))
    by lia.
  reflexivity.
Defined.

(** X3: the sequence number read back from an identifier minted with a
    supplied [seq] is [seq] modulo 4096, for every integer [seq]; with no
    [seq] it is 0. *)
Theorem minted_seqNo now gp ts seqNo :
  getUUIDv7SeqNo (newUUIDv7Bytes now gp (Some ts) seqNo).1
  = default 0 seqNo mod 4096.
Proof.
  unfold newUUIDv7Bytes. cbn [fst].
  generalize (default 0 seqNo). intros q.
  destruct (buildUUID_shape (seed gp) ts q)
    as (d8 & d9 & d10 & d11 & d12 & d13 & d14 & d15 & _ & ->).
  unfold getUUIDv7SeqNo, load.
  cbn [lookup list_lookup default from_option id].
  destruct (version_nibble _ (seq_high_nibble q)) as [_ ->].
  rewrite Z.shiftl_mul_pow2, Z.shiftr_div_pow2 by lia.
  change 0xf with (Z.ones 4). change 0xff with (Z.ones 8).
  rewrite !Z.land_ones by lia.
  change (2 ^ 8) with 256. change (2 ^ 4) with 16.
  Z.to_euclidean_division_equations. lia.
Qed.

(** X4: a bundle made by [makeSigned()] at the clock [timeStamp] decodes,
    on the other side of the base-64 text, to a generator state whose
    [notBefore] and [lastGenTS] are [timeStamp], whose sequence is 0 and
    whose seed is the random bytes with the six time slots zeroed. *)
Theorem issued_bundle_decodes toBase64 sign atob random timeStamp :
  (6 <= length random)%nat ->
  0 <= timeStamp < 2 ^ 48 ->
  atob (toBase64 (initBytes random timeStamp)) = initBytes random timeStamp ->
  let bundle := makeSigned toBase64 sign random timeStamp None in
  let g := signedInfoToUuid7GenParams atob bundle in
  notBefore g = timeStamp
  /\ lastGenTS g = timeStamp
  /\ lastGenSeq g = 0
  /\ seed g = (replicate 6 0 ++ drop 6 random)%list
  /\ privKey g = signatureBase64 bundle.
Proof.
  intros Hlen Hts Hatob. cbv zeta.
  unfold signedInfoToUuid7GenParams, makeSigned.
  cbn [initBytesBase64 signatureBase64]. rewrite Hatob.
  rewrite initBytes_writeTimestamp, writeTimestamp_shape by exact Hlen.
  unfold store, load. cbn -[tsByte Z.mul Z.add].
  rewrite Z.mul_0_l, Z.add_0_l, timestamp_digits by lia.
  rewrite Z.mod_small by lia. repeat split.
Qed.

Lemma issued_bundle_decodes_witness :
  let random := replicate 80 7 in
  let toBase64 (_ : list Z) := "AAAA" in
  let atob (_ : string) := initBytes random 1700000000000 in
  notBefore
    (signedInfoToUuid7GenParams atob
       (makeSigned toBase64 (fun t => t) random 1700000000000 None))
  = 1700000000000.
Proof.
  intros random toBase64 atob.
  apply (issued_bundle_decodes toBase64 (fun t => t) atob random
           1700000000000); [simpl; lia|lia|reflexivity].
Defined.

End MintFacts.

(** ** What [parseUUIDString] accepts *)

Module ParseFacts.
Import Num UUIDv7 Layout.

Lemma below_nat (f : nat -> bool) (n : nat) :
  forallb f (seq 0 n) = true -> forall i, (i < n)%nat -> f i = true.
Proof.
  intros Hall i Hi. rewrite forallb_forall in Hall. apply Hall.
  apply in_seq. lia.
Qed.

Lemma dashesFrom_succ i :
  (i < 36)%nat -> dashPlace i = true -> dashesFrom i = S (dashesFrom (S i)).
Proof.
  intros Hi Hd. apply Nat.eqb_eq.
  pose proof (below_nat
    (fun i => implb (dashPlace i) (dashesFrom i =? S (dashesFrom (S i)))%nat)
    36 ltac:(vm_compute; reflexivity) i Hi) as H.
  cbv beta in H. rewrite Hd in H. exact H.
Qed.

Lemma dashesFrom_pair i :
  (i < 36)%nat -> dashPlace i = false -> dashPlace (S i) = false ->
  dashesFrom (i + 2) = dashesFrom i.
Proof.
  intros Hi Hd Hd'. apply Nat.eqb_eq.
  pose proof (below_nat
    (fun i => implb (negb (dashPlace i) && negb (dashPlace (S i)))
                (dashesFrom (i + 2) =? dashesFrom i)%nat)
    36 ltac:(vm_compute; reflexivity) i Hi) as H.
  cbv beta in H. rewrite Hd, Hd' in H. exact H.
Qed.

Lemma dashesFrom_mono i :
  (i < 36)%nat -> (dashesFrom (i + 2) <= dashesFrom i)%nat.
Proof.
  intros Hi. apply Nat.leb_le.
  exact (below_nat (fun i => (dashesFrom (i + 2) <=? dashesFrom i)%nat)
           36 ltac:(vm_compute; reflexivity) i Hi).
Qed.

Lemma dashesFrom_end : dashesFrom 36 = 0%nat.
Proof. reflexivity. Qed.

Lemma dashesFrom_bound i : (dashesFrom i <= 4)%nat.
Proof.
  unfold dashesFrom.
  destruct (i <=? 8)%nat, (i <=? 13)%nat, (i <=? 18)%nat, (i <=? 23)%nat;
    simpl; lia.
Qed.

Lemma onTrack_facts i o :
  onTrack i o -> (i < 36)%nat ->
  (o < 16)%nat
  /\ (dashPlace i = false ->
      dashPlace (S i) = false /\ (S i < 36)%nat /\ pairAt o = i).
Proof.
  unfold onTrack. intros H Hi.
  pose proof (dashesFrom_bound i) as Hb.
  assert (Ho : (o < 20)%nat) by lia.
  pose proof (below_nat
    (fun i =>
       forallb
         (fun o =>
            implb (i + dashesFrom i =? 2 * o + 4)%nat
              ((o <? 16)%nat
               && implb (negb (dashPlace i))
                    (negb (dashPlace (S i)) && (S i <? 36)%nat
                     && (pairAt o =? i)%nat)))
         (seq 0 20))
    36 ltac:(vm_compute; reflexivity) i Hi) as Hall.
  cbv beta in Hall.
  pose proof (below_nat _ 20 Hall o Ho) as Hcheck. cbv beta in Hcheck.
  apply Nat.eqb_eq in H. rewrite H in Hcheck. simpl in Hcheck.
  apply andb_prop in Hcheck as [Ho' Hrest].
  split; [apply Nat.ltb_lt, Ho'|].
  intros Hd. rewrite Hd in Hrest. simpl in Hrest.
  apply andb_prop in Hrest as [Hrest Hpair].
  apply andb_prop in Hrest as [Hd' Hlt].
  split; [apply negb_true_iff, Hd'|].
  split; [apply Nat.ltb_lt, Hlt|apply Nat.eqb_eq, Hpair].
Qed.

Lemma dashesFrom_skip i :
  (i < 36)%nat -> dashPlace i = true ->
  (dashesFrom (i + 2) < dashesFrom i)%nat.
Proof.
  intros Hi Hd. apply Nat.ltb_lt.
  pose proof (below_nat
    (fun i => implb (dashPlace i) (dashesFrom (i + 2) <? dashesFrom i)%nat)
    36 ltac:(vm_compute; reflexivity) i Hi) as H.
  cbv beta in H. rewrite Hd in H. exact H.
Qed.

Lemma dash_test i :
  negb (i =? 8)%nat && negb (i =? 13)%nat && negb (i =? 18)%nat
  && negb (i =? 23)%nat = negb (dashPlace i).
Proof.
  unfold dashPlace.
  destruct (i =? 8)%nat, (i =? 13)%nat, (i =? 18)%nat, (i =? 23)%nat;
    reflexivity.
Qed.

Lemma pairAt_places k :
  (k < 16)%nat ->
  dashPlace (pairAt k) = false /\ dashPlace (pairAt k + 1) = false
  /\ (pairAt k + 1 < 36)%nat.
Proof.
  intros Hk.
  pose proof (below_nat
    (fun k => negb (dashPlace (pairAt k)) && negb (dashPlace (pairAt k + 1))
              && (pairAt k + 1 <? 36)%nat)
    16 ltac:(vm_compute; reflexivity) k Hk) as H.
  cbv beta in H.
  apply andb_prop in H as [H H3]. apply andb_prop in H as [H1 H2].
  rewrite negb_true_iff in H1, H2. apply Nat.ltb_lt in H3. auto.
Qed.

Lemma placeOk_dash str p :
  dashPlace p = true -> placeOk str p = true ->
  charCodeAt str p = Some dashCode.
Proof.
  unfold placeOk. intros ->. apply bool_decide_eq_true_1.
Qed.

Lemma placeOk_hex str p :
  dashPlace p = false -> placeOk str p = true ->
  charCodeAt str p <> Some dashCode
  /\ 0 <= hexAsciiToBits (charCodeAt str p) < 16.
Proof.
  unfold placeOk, isHexCode. intros -> Hhex.
  apply negb_true_iff, Z.eqb_neq in Hhex.
  pose proof (CodecFacts.hexAsciiToBits_range (charCodeAt str p)).
  split; [|lia].
  intros Heq. rewrite Heq in Hhex. apply Hhex. reflexivity.
Qed.

Lemma fillFrom_step str o b :
  (o < 16)%nat ->
  fillFrom str o b
  = fillFrom str (S o)
      (store b o
         (Z.lor (Z.shiftl (hexAsciiToBits (charCodeAt str (pairAt o))) 16)
                (hexAsciiToBits (charCodeAt str (pairAt o + 1))))).
Proof.
  intros Ho. unfold fillFrom.
  replace (16 - o)%nat with (S (16 - S o)) by lia. reflexivity.
Qed.

Lemma fillFrom_end str b : fillFrom str 16 b = b.
Proof. reflexivity. Qed.

(** A well-formed text is read to its end, along the track. *)
Lemma parseLoop_wellFormed fuel str obuf i o :
  onTrack i o ->
  (i <= 36)%nat ->
  (36 <= fuel + i)%nat ->
  (forall p, (i <= p < 36)%nat -> placeOk str p = true) ->
  parseLoop fuel str obuf i o = Exit 36 16 (fillFrom str o <$> obuf).
Proof.
  revert obuf i o.
  assert (Hend : forall n obuf o,
             onTrack 36 o ->
             parseLoop n str obuf 36 o
             = Exit 36 16 (fillFrom str o <$> obuf)).
  { intros n obuf o Htrack. unfold onTrack in Htrack.
    rewrite dashesFrom_end in Htrack. assert (o = 16%nat) as -> by lia.
    destruct n, obuf; reflexivity. }
  induction fuel as [|fuel IH]; intros obuf i o Htrack Hi Hfuel Hok.
  { assert (i = 36%nat) as -> by lia. apply Hend, Htrack. }
  destruct (decide (i = 36%nat)) as [->|Hne]; [apply Hend, Htrack|].
  assert (Hlt : (i < 36)%nat) by lia.
  destruct (onTrack_facts i o Htrack Hlt) as [Ho Hpair].
  rewrite CodecFacts.parseLoop_unfold.
  destruct (Nat.ltb_spec i 36) as [_|]; [|lia].
  destruct (Nat.ltb_spec o 16) as [_|]; [|lia].
  cbn [andb]. cbv zeta. rewrite dash_test.
  destruct (dashPlace i) eqn:Hd.
  - rewrite (placeOk_dash str i Hd) by (apply Hok; lia).
    rewrite bool_decide_eq_true_2 by reflexivity. cbn [negb].
    apply IH; [|lia|lia|intros p Hp; apply Hok; lia].
    unfold onTrack in *. rewrite (dashesFrom_succ i Hlt Hd) in Htrack. lia.
  - destruct (Hpair eq_refl) as (Hd' & Hlt' & Hat).
    destruct (placeOk_hex str i Hd) as [Hnodash Hc0]; [apply Hok; lia|].
    destruct (placeOk_hex str (S i) Hd') as [_ Hc1]; [apply Hok; lia|].
    rewrite bool_decide_eq_false_2 by exact Hnodash.
    replace (i + 1)%nat with (S i) by lia.
    destruct (Z.eqb_spec (hexAsciiToBits (charCodeAt str i)) (-1)); [lia|].
    destruct (Z.eqb_spec (hexAsciiToBits (charCodeAt str (S i))) (-1));
      [lia|].
    cbn [orb].
    rewrite IH; [|unfold onTrack in *;
                   rewrite (dashesFrom_pair i Hlt Hd Hd'); lia
                 |lia|lia|intros p Hp; apply Hok; lia].
    f_equal. destruct obuf as [b|]; [|reflexivity].
    cbn [fmap option_fmap option_map]. f_equal.
    rewrite (fillFrom_step str o b Ho), Hat.
    replace (i + 1)%nat with (S i) by lia. reflexivity.
Qed.

(** Once a dash place has been stepped over, the loop cannot end on
    [iidx = 36] and [oidx = 16]. *)
Lemma parseLoop_dead fuel str obuf i o ob :
  (i + dashesFrom i < 2 * o + 4)%nat ->
  parseLoop fuel str obuf i o <> Exit 36 16 ob.
Proof.
  revert obuf i o.
  induction fuel as [|fuel IH]; intros obuf i o Hoff.
  - simpl. destruct (_ && _); [discriminate|].
    intros [= -> -> _]. rewrite dashesFrom_end in Hoff. lia.
  - rewrite CodecFacts.parseLoop_unfold.
    destruct (Nat.ltb_spec i 36) as [Hlt|];
      [|cbn [andb]; intros [= -> -> _];
        rewrite dashesFrom_end in Hoff; lia].
    destruct (o <? 16)%nat;
      [|cbn [andb]; intros [= -> -> _];
        rewrite dashesFrom_end in Hoff; lia].
    cbn [andb]. cbv zeta. rewrite dash_test.
    case_bool_decide.
    + destruct (dashPlace i) eqn:Hd; [|discriminate]. cbn [negb].
      apply IH. rewrite (dashesFrom_succ i Hlt Hd) in Hoff. lia.
    + destruct (_ || _); [discriminate|].
      apply IH. pose proof (dashesFrom_mono i Hlt). lia.
Qed.

(** A text the loop reads to [iidx = 36] and [oidx = 16] is well formed. *)
Lemma parseLoop_exit_wellFormed fuel str obuf i o ob :
  onTrack i o ->
  parseLoop fuel str obuf i o = Exit 36 16 ob ->
  forall p, (i <= p < 36)%nat -> placeOk str p = true.
Proof.
  revert obuf i o.
  induction fuel as [|fuel IH]; intros obuf i o Htrack.
  - simpl. destruct (_ && _); [discriminate|].
    intros [= -> -> _] p Hp. lia.
  - rewrite CodecFacts.parseLoop_unfold.
    destruct (Nat.ltb_spec i 36) as [Hlt|];
      [|cbn [andb]; intros [= -> -> _] p Hp; lia].
    destruct (o <? 16)%nat; [|cbn [andb]; intros [= -> -> _] p Hp; lia].
    cbn [andb]. cbv zeta. rewrite dash_test.
    case_bool_decide as Hdash.
    + destruct (dashPlace i) eqn:Hd; [|discriminate]. cbn [negb].
      intros Hloop p Hp.
      destruct (decide (p = i)) as [->|Hne].
      * unfold placeOk. rewrite Hd. apply bool_decide_eq_true_2, Hdash.
      * eapply IH; [|exact Hloop|lia].
        unfold onTrack in *. rewrite (dashesFrom_succ i Hlt Hd) in Htrack.
        lia.
    + destruct (Z.eqb_spec (hexAsciiToBits (charCodeAt str i)) (-1))
        as [|Hc0]; [discriminate|].
      destruct (Z.eqb_spec (hexAsciiToBits (charCodeAt str (i + 1))) (-1))
        as [|Hc1]; [discriminate|].
      cbn [orb]. intros Hloop.
      destruct (dashPlace i) eqn:Hd.
      { exfalso. eapply parseLoop_dead; [|exact Hloop].
        pose proof (dashesFrom_skip i Hlt Hd).
        unfold onTrack in Htrack. lia. }
      destruct (onTrack_facts i o Htrack Hlt) as [Ho Hpair].
      destruct (Hpair Hd) as (Hd' & Hlt' & Hat).
      intros p Hp.
      destruct (decide (p = i)) as [->|Hne];
        [|destruct (decide (p = S i)) as [->|Hne']].
      * unfold placeOk, isHexCode. rewrite Hd.
        apply negb_true_iff, Z.eqb_neq, Hc0.
      * unfold placeOk, isHexCode. rewrite Hd'.
        replace (i + 1)%nat with (S i) in Hc1 by lia.
        apply negb_true_iff, Z.eqb_neq, Hc1.
      * eapply IH; [|exact Hloop|lia].
        unfold onTrack in *. rewrite (dashesFrom_pair i Hlt Hd Hd'). lia.
Qed.

Lemma onTrack_start : onTrack 0 0.
Proof. reflexivity. Qed.

(** The buffer of the sharp pass of a well-formed text. *)
Lemma fillFrom_secondDigits str :
  (forall p, (p < 36)%nat -> placeOk str p = true) ->
  fillFrom str 0 (replicate 16 0) = secondDigits str.
Proof.
  intros Hok.
  transitivity
    (map (fun k =>
            u8 (Z.lor
                  (Z.shiftl (hexAsciiToBits (charCodeAt str (pairAt k))) 16)
                  (hexAsciiToBits (charCodeAt str (pairAt k + 1)))))
       (seq 0 16)); [reflexivity|].
  unfold secondDigits. apply map_ext_in. intros k Hk.
  apply in_seq in Hk.
  destruct (pairAt_places k) as (Hd & Hd' & Hlt); [lia|].
  destruct (placeOk_hex str (pairAt k) Hd) as [_ Hc0]; [apply Hok; lia|].
  destruct (placeOk_hex str (pairAt k + 1) Hd') as [_ Hc1];
    [apply Hok; lia|].
  apply CodecFacts.stored_nibble; assumption.
Qed.

(** The two passes of the parser, on a text that is well formed and on
    one that is not. *)
Lemma parse_follows_layout str :
  parseUUIDString str
  = if wellFormed str then Bytes (secondDigits str) else Null.
Proof.
  unfold parseUUIDString, wellFormed.
  destruct (String.length str =? 36)%nat; [|reflexivity].
  cbn [negb andb].
  destruct (forallb (placeOk str) (seq 0 36)) eqn:Hall.
  - assert (Hok : forall p, (p < 36)%nat -> placeOk str p = true)
      by (apply below_nat, Hall).
    unfold parsePass.
    rewrite !(parseLoop_wellFormed 36 str _ 0 0 onTrack_start)
      by (lia || (intros p Hp; apply Hok; lia)).
    rewrite <- (fillFrom_secondDigits str Hok). reflexivity.
  - assert (Hpass : parsePass str 0 = Some None).
    { unfold parsePass. cbn [Nat.eqb].
      destruct (parseLoop 36 str None 0 0) as [|i o ob|] eqn:Hloop;
        try reflexivity.
      destruct (Nat.eqb_spec i 36) as [->|]; [|reflexivity].
      destruct (Nat.eqb_spec o 16) as [->|]; [|reflexivity].
      exfalso.
      pose proof (parseLoop_exit_wellFormed _ _ _ _ _ _ onTrack_start Hloop)
        as Hok.
      assert (forallb (placeOk str) (seq 0 36) = true) as Hall'.
      { apply forallb_forall. intros p Hp. apply in_seq in Hp.
        apply Hok. lia. }
      congruence. }
    rewrite Hpass. reflexivity.
Qed.

(** X5: [parseUUIDString] returns bytes exactly on the texts of 36
    characters that have a dash at 8, 13, 18 and 23 and a hexadecimal
    digit (of either case) everywhere else, and [null] on every other
    text; it never throws. The bytes it returns are the values of the
    second digit of each pair. *)
Theorem parseUUIDString_layout str :
  parseUUIDString str
  = if wellFormed str then Bytes (secondDigits str) else Null.
Proof. exact (parse_follows_layout str). Qed.

(** X6: the text [uuidBytesToString] makes of sixteen bytes is well
    formed, and [parseUUIDString] reads it back as the low nibble of each
    byte (the high nibbles are lost). *)
Theorem text_round_trip b :
  is_bytes b ->
  length b = 16%nat ->
  wellFormed (uuidBytesToString b) = true
  /\ parseUUIDString (uuidBytesToString b)
     = Bytes (map (fun x => Z.land x 0xf) b).
Proof.
  intros Hb Hlen.
  pose proof (CodecFacts.parse_of_string_low_nibbles b Hb Hlen) as Hparse.
  split; [|exact Hparse].
  rewrite parse_follows_layout in Hparse.
  destruct (wellFormed (uuidBytesToString b)); [reflexivity|discriminate].
Qed.

Lemma text_round_trip_witness :
  let b := [1; 143; 0; 0; 0; 0; 112; 0; 128; 0; 0; 0; 0; 0; 0; 171] in
  is_bytes b
  /\ parseUUIDString (uuidBytesToString b)
     = Bytes [1; 15; 0; 0; 0; 0; 0; 0; 0; 0; 0; 0; 0; 0; 0; 11].
Proof.
  intros b.
  assert (Hb : is_bytes b)
    by (unfold is_bytes; repeat (apply Forall_cons; split; [lia|]);
        constructor).
  split; [exact Hb|].
  exact (proj2 (text_round_trip b Hb eq_refl)).
Defined.

(** Digits of either case are read, and read alike. *)
Example upper_case_is_read :
  parseUUIDString "018F0000-0000-7000-8000-00000000ABCD"
  = parseUUIDString "018f0000-0000-7000-8000-00000000abcd"
  /\ wellFormed "018F0000-0000-7000-8000-00000000ABCD" = true
  /\ wellFormed "018f0000-0000-7000-8000-00000000abc" = false
  /\ wellFormed "018f0000-0000-7000-8000000000000abcd-" = false
  /\ wellFormed "018f0000+0000-7000-8000-00000000abcd" = false.
Proof. vm_compute. auto. Qed.

End ParseFacts.

(** ** The generator without a supplied timestamp *)

Module ClockFacts.
Import Num UUIDv7 Scenario.

Lemma buildUUID_timestamp seed ts seqNo :
  0 <= ts -> getUUIDv7Timestamp (buildUUID seed ts seqNo) = ts mod 2 ^ 48.
Proof.
  intros Hts.
  destruct (MintFacts.buildUUID_shape seed ts seqNo)
    as (d8 & d9 & d10 & d11 & d12 & d13 & d14 & d15 & _ & ->).
  unfold getUUIDv7Timestamp, load.
  cbn [fold_left seq lookup list_lookup default from_option id].
  rewrite Z.mul_0_l, Z.add_0_l. apply MintFacts.timestamp_digits, Hts.
Qed.

Lemma buildUUID_seqNo seed ts seqNo :
  getUUIDv7SeqNo (buildUUID seed ts seqNo) = seqNo mod 4096.
Proof.
  destruct (MintFacts.buildUUID_shape seed ts seqNo)
    as (d8 & d9 & d10 & d11 & d12 & d13 & d14 & d15 & _ & ->).
  unfold getUUIDv7SeqNo, load.
  cbn [lookup list_lookup default from_option id].
  destruct (MintFacts.version_nibble _ (MintFacts.seq_high_nibble seqNo))
    as [_ ->].
  rewrite Z.shiftl_mul_pow2, Z.shiftr_div_pow2 by lia.
  change 0xf with (Z.ones 4). change 0xff with (Z.ones 8).
  rewrite !Z.land_ones by lia.
  change (2 ^ 8) with 256. change (2 ^ 4) with 16.
  Z.to_euclidean_division_equations. lia.
Qed.

(** One call without [ts] while the clock has not passed [lastGenTS]:
    the identifier carries [lastGenTS] and the next sequence number, or,
    when that would be 4096, the next millisecond and 0; the generator
    state is left at what the identifier carries. *)
Lemma clock_mint_step now gp :
  now <= lastGenTS gp ->
  0 <= lastGenTS gp ->
  0 <= lastGenSeq gp < 4096 ->
  let minted :=
    if lastGenSeq gp + 1 <? 4096 then (lastGenTS gp, lastGenSeq gp + 1)
    else (lastGenTS gp + 1, 0) in
  minted.1 < 2 ^ 48 ->
  let first := newUUIDv7Bytes now gp None None in
  getUUIDv7Timestamp first.1 = minted.1
  /\ getUUIDv7SeqNo first.1 = minted.2
  /\ lastGenTS first.2 = minted.1
  /\ lastGenSeq first.2 = minted.2.
Proof.
  intros Hnow Hts Hseq. cbv zeta. unfold newUUIDv7Bytes, nextTimestamp.
  assert (Hclock : (if now <? lastGenTS gp then lastGenTS gp else now)
                   = lastGenTS gp)
    by (destruct (Z.ltb_spec now (lastGenTS gp)); lia).
  rewrite Hclock, Z.eqb_refl.
  destruct (Z.ltb_spec (lastGenSeq gp + 1) 4096) as [Hroom|Hover];
    destruct (Z.leb_spec (16 * 256) (lastGenSeq gp + 1)) as [Hover'|Hroom'];
    try lia;
    cbn [fst snd lastGenTS lastGenSeq seed]; intros Hbound;
    rewrite buildUUID_timestamp, buildUUID_seqNo by lia;
    rewrite !Z.mod_small by lia; auto.
Qed.

(** X7: while the clock has not passed [lastGenTS], each call without
    [ts] mints at [lastGenTS] with the sequence number one above
    [lastGenSeq], or, when that would be 4096, one millisecond after
    [lastGenTS] with the sequence number 0, and leaves the generator state
    at what it minted. Two calls in a row therefore mint in strictly
    increasing order of (timestamp, sequence number), and neither
    timestamp is before [lastGenTS]. *)
Theorem clock_mint_in_order now gp :
  now <= lastGenTS gp ->
  0 <= lastGenTS gp < 2 ^ 48 - 1 ->
  0 <= lastGenSeq gp < 4096 ->
  let first := newUUIDv7Bytes now gp None None in
  let second := newUUIDv7Bytes now first.2 None None in
  let t1 := getUUIDv7Timestamp first.1 in
  let q1 := getUUIDv7SeqNo first.1 in
  let t2 := getUUIDv7Timestamp second.1 in
  let q2 := getUUIDv7SeqNo second.1 in
  (t1, q1)
  = (if lastGenSeq gp + 1 <? 4096 then (lastGenTS gp, lastGenSeq gp + 1)
     else (lastGenTS gp + 1, 0))
  /\ (lastGenTS first.2, lastGenSeq first.2) = (t1, q1)
  /\ (t2, q2) = (if q1 + 1 <? 4096 then (t1, q1 + 1) else (t1 + 1, 0))
  /\ (lastGenTS second.2, lastGenSeq second.2) = (t2, q2)
  /\ lastGenTS gp <= t1
  /\ (t1 < t2 \/ (t1 = t2 /\ q1 < q2)).
Proof.
  intros Hnow Hts Hseq first second t1 q1 t2 q2.
  assert (Hfirst :
    t1 = (if lastGenSeq gp + 1 <? 4096 then (lastGenTS gp, lastGenSeq gp + 1)
          else (lastGenTS gp + 1, 0)).1
    /\ q1 = (if lastGenSeq gp + 1 <? 4096
             then (lastGenTS gp, lastGenSeq gp + 1)
             else (lastGenTS gp + 1, 0)).2
    /\ lastGenTS first.2 = t1 /\ lastGenSeq first.2 = q1).
  { assert (Hbound :
      (if lastGenSeq gp + 1 <? 4096 then (lastGenTS gp, lastGenSeq gp + 1)
       else (lastGenTS gp + 1, 0)).1 < 2 ^ 48)
      by (destruct (lastGenSeq gp + 1 <? 4096); cbn [fst]; lia).
    destruct (clock_mint_step now gp Hnow ltac:(lia) Hseq Hbound)
      as (Ht & Hq & Hts' & Hq').
    fold first in Ht, Hq, Hts', Hq'. fold t1 in Ht. fold q1 in Hq.
    repeat split; congruence. }
  destruct Hfirst as (Ht1 & Hq1 & Hts1 & Hseq1).
  assert (Hpair1 : (t1 = lastGenTS gp /\ q1 = lastGenSeq gp + 1
                    /\ lastGenSeq gp + 1 < 4096)
                   \/ (t1 = lastGenTS gp + 1 /\ q1 = 0
                       /\ lastGenSeq gp + 1 = 4096)).
  { revert Ht1 Hq1.
    destruct (Z.ltb_spec (lastGenSeq gp + 1) 4096); cbn [fst snd]; lia. }
  assert (Hsecond :
    t2 = (if q1 + 1 <? 4096 then (t1, q1 + 1) else (t1 + 1, 0)).1
    /\ q2 = (if q1 + 1 <? 4096 then (t1, q1 + 1) else (t1 + 1, 0)).2
    /\ lastGenTS second.2 = t2 /\ lastGenSeq second.2 = q2).
  { assert (Hnow1 : now <= lastGenTS first.2) by (rewrite Hts1; lia).
    assert (Hpos1 : 0 <= lastGenTS first.2) by (rewrite Hts1; lia).
    assert (Hseq' : 0 <= lastGenSeq first.2 < 4096)
      by (rewrite Hseq1; lia).
    assert (Hbound :
      (if lastGenSeq first.2 + 1 <? 4096
       then (lastGenTS first.2, lastGenSeq first.2 + 1)
       else (lastGenTS first.2 + 1, 0)).1 < 2 ^ 48).
    { rewrite Hts1, Hseq1.
      destruct (Z.ltb_spec (q1 + 1) 4096); cbn [fst]; lia. }
    destruct (clock_mint_step now first.2 Hnow1 Hpos1 Hseq' Hbound)
      as (Ht & Hq & Hts' & Hq').
    fold second in Ht, Hq, Hts', Hq'. fold t2 in Ht. fold q2 in Hq.
    rewrite Hts1, Hseq1 in Ht, Hq, Hts', Hq'.
    repeat split; congruence. }
  destruct Hsecond as (Ht2 & Hq2 & Hts2 & Hseq2).
  split.
  { revert Ht1 Hq1. destruct (lastGenSeq gp + 1 <? 4096); cbn [fst snd];
      intros -> ->; reflexivity. }
  split; [rewrite Hts1, Hseq1; reflexivity|].
  split.
  { revert Ht2 Hq2. destruct (q1 + 1 <? 4096); cbn [fst snd];
      intros -> ->; reflexivity. }
  split; [rewrite Hts2, Hseq2; reflexivity|].
  revert Ht2 Hq2.
  destruct (Z.ltb_spec (q1 + 1) 4096); cbn [fst snd]; lia.
Qed.

Lemma clock_mint_in_order_witness :
  let gp :=
    {| notBefore := 5; lastGenTS := 1700000000000; lastGenSeq := 4095;
       seed := replicate 6 0 ++ replicate 74 7; privKey := "c2ln" |} in
  let first := newUUIDv7Bytes 1699999999999 gp None None in
  let second := newUUIDv7Bytes 1699999999999 first.2 None None in
  1699999999999 <= lastGenTS gp
  /\ 0 <= lastGenSeq gp < 4096
  /\ (getUUIDv7Timestamp first.1, getUUIDv7SeqNo first.1)
     = (1700000000001, 0)
  /\ (getUUIDv7Timestamp second.1, getUUIDv7SeqNo second.1)
     = (1700000000001, 1).
Proof.
  intros gp first second.
  assert (H1 : 1699999999999 <= lastGenTS gp) by (simpl; lia).
  assert (H2 : 0 <= lastGenTS gp < 2 ^ 48 - 1) by (simpl; lia).
  assert (H3 : 0 <= lastGenSeq gp < 4096) by (simpl; lia).
  split; [exact H1|]. split; [exact H3|].
  destruct (clock_mint_in_order 1699999999999 gp H1 H2 H3)
    as (Hfirst & _ & Hsecond & _).
  fold first in Hfirst, Hsecond. fold second in Hsecond.
  assert (Hminted : (getUUIDv7Timestamp first.1, getUUIDv7SeqNo first.1)
                    = (1700000000001, 0)) by exact Hfirst.
  split; [exact Hminted|].
  pose proof (f_equal fst Hminted) as Ht.
  pose proof (f_equal snd Hminted) as Hq.
  cbn [fst snd] in Ht, Hq. rewrite Ht, Hq in Hsecond. exact Hsecond.
Defined.

(** X8: once the clock has passed [lastGenTS], a call without [ts] mints
    at the clock with sequence number 0 (the bytes are those of
    [newUUIDv7Bytes(gp, now, 0)]) and does not move [lastGenTS]; a second
    call at the same clock reading therefore returns the same sixteen
    bytes again. *)
Theorem clock_mint_repeats now gp :
  lastGenTS gp < now ->
  let first := newUUIDv7Bytes now gp None None in
  let second := newUUIDv7Bytes now first.2 None None in
  first.1 = (newUUIDv7Bytes now gp (Some now) (Some 0)).1
  /\ (0 <= now -> getUUIDv7Timestamp first.1 = now mod 2 ^ 48)
  /\ getUUIDv7SeqNo first.1 = 0
  /\ lastGenTS first.2 = lastGenTS gp
  /\ lastGenSeq first.2 = 0
  /\ second.1 = first.1
  /\ second.2 = first.2.
Proof.
  intros Hnow. cbv zeta. unfold newUUIDv7Bytes, nextTimestamp.
  destruct (Z.ltb_spec now (lastGenTS gp)) as [|_]; [lia|].
  destruct (Z.eqb_spec now (lastGenTS gp)) as [|_]; [lia|].
  cbn [fst snd lastGenTS lastGenSeq seed default from_option id].
  destruct (Z.ltb_spec now (lastGenTS gp)) as [|_]; [lia|].
  destruct (Z.eqb_spec now (lastGenTS gp)) as [|_]; [lia|].
  cbn [fst snd lastGenTS lastGenSeq seed notBefore privKey].
  split; [reflexivity|].
  split; [intros Hclock; apply buildUUID_timestamp, Hclock|].
  split; [rewrite buildUUID_seqNo; reflexivity|]. auto.
Qed.

Lemma clock_mint_repeats_witness :
  let first := newUUIDv7Bytes 1700000000001 genA None None in
  let second := newUUIDv7Bytes 1700000000001 first.2 None None in
  lastGenTS genA < 1700000000001
  /\ getUUIDv7Timestamp first.1 = 1700000000001
  /\ getUUIDv7SeqNo first.1 = 0
  /\ second.1 = first.1.
Proof.
  intros first second.
  assert (H : lastGenTS genA < 1700000000001) by (simpl; lia).
  split; [exact H|].
  destruct (clock_mint_repeats 1700000000001 genA H)
    as (_ & Hts & Hseq & _ & _ & Hsame & _).
  split; [exact (Hts ltac:(lia))|]. split; [exact Hseq|exact Hsame].
Defined.

End ClockFacts.

(** ** The padding of the hash *)

Module PaddingFacts.
Import Num Sha256.

(** X9: for a message of any length, the number of blocks is the least
    that holds the message, the [0x80] terminator and the eight bytes of
    the length; the two words the length is written into, the last eight
    bytes of the last block, lie after the terminator, so the write covers
    padding only. *)
Theorem length_words_cover_padding data :
  let len := length data in
  let N := blockCount data in
  (len + 9 <= 64 * N < len + 9 + 64)%nat
  /\ forall k, (56 <= k < 64)%nat ->
       (len < (N - 1) * 64 + k)%nat
       /\ readWithTrailingBit data ((N - 1) * 64 + k) = 0.
Proof.
  cbv zeta. unfold blockCount.
  set (len := length data).
  assert (HN : (len + 9 <= 64 * Z.to_nat ((Z.of_nat len + 9 + 63) / 64)
                < len + 9 + 64)%nat).
  { assert (0 <= (Z.of_nat len + 9 + 63) / 64)
      by (apply Z.div_pos; lia).
    pose proof (Z.div_mod (Z.of_nat len + 9 + 63) 64 ltac:(lia)) as Hdm.
    pose proof (Z.mod_pos_bound (Z.of_nat len + 9 + 63) 64 ltac:(lia)).
    lia. }
  split; [exact HN|].
  intros k Hk.
  assert (Hpast : (len < (Z.to_nat ((Z.of_nat len + 9 + 63) / 64) - 1) * 64
                        + k)%nat) by lia.
  split; [exact Hpast|].
  unfold readWithTrailingBit. fold len.
  destruct (Nat.ltb_spec ((Z.to_nat ((Z.of_nat len + 9 + 63) / 64) - 1) * 64
                          + k) len); [lia|].
  destruct (Nat.eqb_spec ((Z.to_nat ((Z.of_nat len + 9 + 63) / 64) - 1) * 64
                          + k) len); [lia|reflexivity].
Qed.

End PaddingFacts.

(** ** The registry of a running server *)

Module ServerRegistryFacts.
Import Num JS UUIDv7 Wire Server Scenario.

Section WithStore.

Context {State Task : Type}.
Variable truthy : State -> bool.

Implicit Types (r : @Registry State Task) (p : Ref) (key : string).

Local Abbreviation start := (@emptyRegistry State Task).

Lemma consistent_empty : consistent (@emptyRegistry State Task).
Proof.
  split; intros ? ?; simpl; rewrite lookup_empty; discriminate.
Qed.

Lemma serverStep_consistent r e :
  consistent r -> consistent (serverStep truthy r e).
Proof.
  intros [Hcalls Hpend]. destruct e as [key|p h v7]; simpl.
  - unfold connectLookup.
    destruct (contexts r !! key) eqn:Hctx; [split; assumption|].
    unfold createContextEnter.
    destruct (pendings r !! key) eqn:Hkey; [split; assumption|]. simpl.
    assert (Hq : promises r !! fresh (dom (promises r)) = None).
    { apply not_elem_of_dom. apply is_fresh. }
    revert Hq. generalize (fresh (dom (promises r))). intros q Hq.
    split.
    + intros p0 k0 Hp0. simpl in Hp0 |- *.
      destruct (decide (q = p0)) as [<-|Hne].
      * rewrite lookup_insert_eq in Hp0. injection Hp0 as <-.
        rewrite !lookup_insert_eq. auto.
      * rewrite lookup_insert_ne in Hp0 by exact Hne.
        destruct (Hcalls p0 k0 Hp0) as (Hk0 & Hc0 & Hpr0).
        rewrite !lookup_insert_ne by congruence. auto.
    + intros k0 p0 Hk0. simpl in Hk0 |- *.
      destruct (decide (key = k0)) as [<-|Hne].
      * rewrite lookup_insert_eq in Hk0. injection Hk0 as <-.
        apply lookup_insert_eq.
      * rewrite lookup_insert_ne in Hk0 by exact Hne.
        pose proof (Hpend k0 p0 Hk0) as Hp0.
        destruct (Hcalls p0 k0 Hp0) as (_ & _ & Hpr0).
        rewrite lookup_insert_ne by congruence. exact Hp0.
  - destruct (hydrating r !! p) as [key|] eqn:Hp; [|split; assumption].
    destruct (Hcalls p key Hp) as (Hkey & Hctx & Hpr).
    assert (Hrest :
      forall contexts' promises',
        (forall k0, k0 <> key -> contexts' !! k0 = contexts r !! k0) ->
        (forall p0, p0 <> p -> promises' !! p0 = promises r !! p0) ->
        consistent
          {| pendings := delete key (pendings r); contexts := contexts';
             promises := promises'; hydrating := delete p (hydrating r);
             hydrateCalls := hydrateCalls r |}).
    { intros contexts' promises' Hc' Hp'. split; simpl.
      - intros p0 k0 Hp0.
        destruct (decide (p = p0)) as [<-|Hne];
          [rewrite lookup_delete_eq in Hp0; discriminate|].
        rewrite lookup_delete_ne in Hp0 by exact Hne.
        destruct (Hcalls p0 k0 Hp0) as (Hk0 & Hc0 & Hpr0).
        assert (k0 <> key) by congruence.
        rewrite lookup_delete_ne, Hc', Hp' by congruence. auto.
      - intros k0 p0 Hk0.
        destruct (decide (key = k0)) as [<-|Hne];
          [rewrite lookup_delete_eq in Hk0; discriminate|].
        rewrite lookup_delete_ne in Hk0 by exact Hne.
        pose proof (Hpend k0 p0 Hk0) as Hp0.
        rewrite lookup_delete_ne by congruence. exact Hp0. }
    unfold createContextResume.
    destruct h as [[d|]|reason]; [destruct (truthy d)| |]; simpl;
      apply Hrest; intros; rewrite ?lookup_insert_ne by congruence;
      reflexivity.
Qed.

Lemma serverRun_consistent es r :
  consistent r -> consistent (serverRun truthy r es).
Proof.
  revert r. induction es as [|e es IH]; intros r Hr; [exact Hr|].
  apply IH, serverStep_consistent, Hr.
Qed.

Lemma served_consistent es :
  consistent (serverRun truthy start es).
Proof. apply serverRun_consistent, consistent_empty. Qed.

(** X10: on a server, at most one call of [hydrate] is in flight for a
    key: two calls of [createContext] suspended at [hydrate] for the same
    key are the same call. *)
Theorem one_hydrate_in_flight es p p' key :
  let r := serverRun truthy start es in
  hydrating r !! p = Some key ->
  hydrating r !! p' = Some key ->
  p = p'.
Proof.
  intros r Hp Hp'. destruct (served_consistent es) as [Hcalls _].
  destruct (Hcalls p key Hp) as (Hk & _).
  destruct (Hcalls p' key Hp') as (Hk' & _).
  congruence.
Qed.

Lemma serverStep_keeps_context r e key c :
  consistent r ->
  contexts r !! key = Some c ->
  contexts (serverStep truthy r e) !! key = Some c.
Proof.
  intros [Hcalls _] Hc. destruct e as [k|p h v7]; simpl.
  - unfold connectLookup.
    destruct (contexts r !! k); [exact Hc|].
    unfold createContextEnter. destruct (pendings r !! k); exact Hc.
  - destruct (hydrating r !! p) as [k|] eqn:Hp; [|exact Hc].
    destruct (Hcalls p k Hp) as (_ & Hnone & _).
    assert (k <> key) by congruence.
    unfold createContextResume.
    destruct h as [[d|]|reason]; [destruct (truthy d)| |]; simpl;
      rewrite ?lookup_insert_ne by assumption; exact Hc.
Qed.

Lemma serverRun_keeps_context es r key c :
  consistent r ->
  contexts r !! key = Some c ->
  contexts (serverRun truthy r es) !! key = Some c.
Proof.
  revert r. induction es as [|e es IH]; intros r Hr Hc; [exact Hc|].
  apply IH; [apply serverStep_consistent, Hr|].
  apply serverStep_keeps_context; assumption.
Qed.

(** X11: on a server, a context that [createContext] has stored under
    a key is never replaced or removed by the registry: whatever calls of
    [connect] and answers of [hydrate] follow, the key holds the same
    context. *)
Theorem context_is_kept es es' key c :
  let r := serverRun truthy start es in
  contexts r !! key = Some c ->
  contexts (serverRun truthy r es') !! key = Some c.
Proof.
  intros r Hc. apply serverRun_keeps_context; [|exact Hc].
  apply served_consistent.
Qed.

(** X12: any number of calls of [connect] on a key that has neither a
    context nor a pending creation cause one call of [hydrate]; all of
    them but the first wait for the promise the first installed. *)
Theorem cold_connects_share_hydrate r key n :
  contexts r !! key = None ->
  pendings r !! key = None ->
  let r' := serverRun truthy r (replicate (S n) (Connecting key)) in
  hydrateCalls r' = (hydrateCalls r ++ [key])%list
  /\ exists p,
       hydrating r' !! p = Some key
       /\ (connectLookup key r').2 = Wait (AwaitPending p)
       /\ (connectLookup key r').1 = r'.
Proof.
  intros Hctx Hkey. cbv zeta.
  assert (Hfirst :
    let r1 := serverStep truthy r (Connecting key) in
    hydrateCalls r1 = (hydrateCalls r ++ [key])%list
    /\ contexts r1 !! key = None
    /\ exists p, pendings r1 !! key = Some p /\ hydrating r1 !! p = Some key).
  { simpl. unfold connectLookup. rewrite Hctx.
    unfold createContextEnter. rewrite Hkey. simpl.
    split; [reflexivity|]. split; [exact Hctx|].
    eexists. rewrite !lookup_insert_eq. auto. }
  cbn [replicate serverRun fold_left].
  fold (serverRun truthy (serverStep truthy r (Connecting key))
          (replicate n (Connecting key))).
  destruct Hfirst as (Hcalls & Hctx1 & p & Hp & Hh).
  revert Hcalls Hctx1 Hp Hh.
  generalize (serverStep truthy r (Connecting key)). intros r1.
  intros Hcalls Hctx1 Hp Hh.
  assert (Hsame : forall m, serverRun truthy r1 (replicate m (Connecting key))
                            = r1).
  { induction m as [|m IH]; [reflexivity|].
    cbn [replicate serverRun fold_left].
    assert (serverStep truthy r1 (Connecting key) = r1) as ->.
    { simpl. unfold connectLookup. rewrite Hctx1.
      unfold createContextEnter. rewrite Hp. reflexivity. }
    exact IH. }
  rewrite Hsame. split; [exact Hcalls|].
  exists p. unfold connectLookup. rewrite Hctx1.
  unfold createContextEnter. rewrite Hp. auto.
Qed.

Lemma serverStep_keeps_settled r e p st :
  promises r !! p = Some st ->
  hydrating r !! p = None ->
  promises (serverStep truthy r e) !! p = Some st
  /\ hydrating (serverStep truthy r e) !! p = None.
Proof.
  intros Hp Hh. destruct e as [key|p' h v7]; simpl.
  - unfold connectLookup. destruct (contexts r !! key); [auto|].
    unfold createContextEnter.
    destruct (pendings r !! key); [auto|]. simpl.
    assert (fresh (dom (promises r)) <> p) as Hne.
    { intros Heq. apply (is_fresh (dom (promises r))).
      rewrite Heq. apply elem_of_dom. eauto. }
    rewrite !lookup_insert_ne by exact Hne. auto.
  - destruct (hydrating r !! p') as [key|] eqn:Hp'; [|auto].
    assert (p' <> p) as Hne by congruence.
    unfold createContextResume.
    destruct h as [[d|]|reason]; [destruct (truthy d)| |]; simpl;
      rewrite ?lookup_insert_ne, ?lookup_delete_ne by exact Hne; auto.
Qed.

Lemma serverRun_keeps_settled es r p st :
  promises r !! p = Some st ->
  hydrating r !! p = None ->
  promises (serverRun truthy r es) !! p = Some st.
Proof.
  revert r. induction es as [|e es IH]; intros r Hp Hh; [exact Hp|].
  destruct (serverStep_keeps_settled r e p st Hp Hh) as [Hp' Hh'].
  exact (IH _ Hp' Hh').
Qed.

(** X13: when [hydrate] returns a state for the call that installed a
    promise, the promise is resolved with the new context and stays so:
    every caller waiting for it obtains the context, the context holds the
    hydrated state, no client and an empty queue, and every later
    [connect] on the key finds it without a call of [hydrate]. *)
Theorem created_context_is_shared es p key d v7 es' :
  let r := serverRun truthy start es in
  hydrating r !! p = Some key ->
  truthy d = true ->
  let r' := serverRun truthy (serverStep truthy r
                                (Settling p (Returned (Some d)) v7)) es' in
  awaited r' p = Some (Resolved (Some key))
  /\ contexts r' !! key
     = Some {| store := d; socketToClient := []; lastAction := v7;
               scheduledQueue := [] |}
  /\ connectLookup key r' = (r', Found key).
Proof.
  intros r Hp Hd r'.
  assert (Hstep :
    let r1 := serverStep truthy r (Settling p (Returned (Some d)) v7) in
    promises r1 !! p = Some (Resolved (Some key))
    /\ hydrating r1 !! p = None
    /\ contexts r1 !! key
       = Some {| store := d; socketToClient := []; lastAction := v7;
                 scheduledQueue := [] |}).
  { simpl. rewrite Hp. unfold createContextResume. rewrite Hd. simpl.
    rewrite !lookup_insert_eq, lookup_delete_eq. auto. }
  destruct Hstep as (Hpr & Hh & Hctx).
  assert (Hkept : contexts r' !! key
                  = Some {| store := d; socketToClient := [];
                            lastAction := v7; scheduledQueue := [] |}).
  { apply serverRun_keeps_context; [|exact Hctx].
    apply serverStep_consistent, served_consistent. }
  split; [|split; [exact Hkept|]].
  - unfold awaited, r'.
    rewrite (serverRun_keeps_settled es' _ p _ Hpr Hh). reflexivity.
  - unfold connectLookup. rewrite Hkept. reflexivity.
Qed.

End WithStore.

Lemma created_context_is_shared_witness :
  let r := serverRun anyState cold [Connecting "room/a"; Connecting "room/a"] in
  hydrating r !! 0%nat = Some "room/a"
  /\ anyState 3 = true
  /\ awaited
       (serverRun anyState
          (serverStep anyState r (Settling 0%nat (Returned (Some 3)) "v7"))
          [Connecting "room/a"]) 0%nat
     = Some (Resolved (Some "room/a")).
Proof.
  intros r.
  assert (Hh : hydrating (serverRun anyState (@emptyRegistry Z unit)
                            [Connecting "room/a"; Connecting "room/a"])
               !! 0%nat = Some "room/a") by (vm_compute; reflexivity).
  split; [exact Hh|]. split; [reflexivity|].
  exact (proj1 (created_context_is_shared anyState
                  [Connecting "room/a"; Connecting "room/a"] 0%nat "room/a"
                  3 "v7" [Connecting "room/a"] Hh eq_refl)).
Defined.

Lemma one_hydrate_in_flight_witness :
  let r := serverRun anyState cold [Connecting "room/a"; Connecting "room/a"] in
  hydrating r !! 0%nat = Some "room/a" /\ 0%nat = 0%nat.
Proof.
  intros r.
  assert (Hh : hydrating (serverRun anyState (@emptyRegistry Z unit)
                            [Connecting "room/a"; Connecting "room/a"])
               !! 0%nat = Some "room/a") by (vm_compute; reflexivity).
  split; [exact Hh|].
  exact (one_hydrate_in_flight anyState
           [Connecting "room/a"; Connecting "room/a"] 0%nat 0%nat "room/a"
           Hh Hh).
Defined.

Lemma context_is_kept_witness :
  let r := serverRun anyState cold
             [Connecting "room/a";
              Settling 0%nat (Returned (Some 3)) "v7"] in
  contexts r !! "room/a"
  = Some {| store := 3; socketToClient := []; lastAction := "v7";
            scheduledQueue := [] |}
  /\ contexts
       (serverRun anyState r
          [Connecting "room/a";
           Settling 0%nat (Returned (Some 4)) "v8"]) !! "room/a"
     = Some {| store := 3; socketToClient := []; lastAction := "v7";
               scheduledQueue := [] |}.
Proof.
  intros r.
  assert (Hc : contexts (serverRun anyState (@emptyRegistry Z unit)
                           [Connecting "room/a";
                            Settling 0%nat (Returned (Some 3)) "v7"])
               !! "room/a"
               = Some {| store := 3; socketToClient := [];
                         lastAction := "v7"; scheduledQueue := [] |})
    by (vm_compute; reflexivity).
  split; [exact Hc|].
  exact (context_is_kept anyState
           [Connecting "room/a"; Settling 0%nat (Returned (Some 3)) "v7"]
           [Connecting "room/a"; Settling 0%nat (Returned (Some 4)) "v8"]
           "room/a" _ Hc).
Defined.

Lemma cold_connects_share_hydrate_witness :
  contexts cold !! "room/a" = None
  /\ pendings cold !! "room/a" = None
  /\ hydrateCalls (serverRun anyState cold (replicate 3 (Connecting "room/a")))
     = ["room/a"].
Proof.
  split; [reflexivity|]. split; [reflexivity|].
  exact (proj1 (cold_connects_share_hydrate anyState cold "room/a" 2
                  eq_refl eq_refl)).
Defined.

End ServerRegistryFacts.

(** ** More of the live handler *)

Module SessionFacts.
Import Num JS UUIDv7 Wire Server Scenario.

Lemma compare_same (s : string) : String.compare s s = Eq.
Proof.
  pose proof (String.compare_antisym s s) as H.
  destruct (String.compare s s); [reflexivity|discriminate|discriminate].
Qed.

(** X14: the id the handler gives an action is never above the freshly
    minted [next], and, when [lastAction] is not above [next], never below
    [lastAction]. *)
Theorem chosen_id_between actionId lastAction next :
  String.leb lastAction next = true ->
  String.leb lastAction (chooseId actionId lastAction next) = true
  /\ String.leb (chooseId actionId lastAction next) next = true.
Proof.
  intros Hle.
  assert (Hnext : String.leb next next = true)
    by (unfold String.leb; rewrite compare_same; reflexivity).
  unfold chooseId, String.ltb.
  destruct (String.compare actionId lastAction) eqn:Hal,
           (String.compare next actionId) eqn:Hna;
    cbn [orb]; auto; unfold String.leb;
    rewrite (String.compare_antisym lastAction actionId), Hal,
            (String.compare_antisym actionId next), Hna; auto.
Qed.

Lemma chosen_id_between_witness :
  String.leb (lastAction room) (v7uuid oracle) = true
  /\ String.leb (chooseId staleId (lastAction room) (v7uuid oracle))
       (v7uuid oracle) = true.
Proof.
  split; [reflexivity|].
  exact (proj2 (chosen_id_between staleId (lastAction room) (v7uuid oracle)
                  eq_refl)).
Defined.

Section WithStore.

Context {State Task : Type}.
Variable reducer : State -> Value -> State.
Variable actionFilter :
  option (@MPServerActionFilterContext State -> Value -> Value * list Task).
Variable verifySigned : SerializedGenerationParams -> bool.
Variable atob : string -> list Z.

Implicit Types (clients : Clients) (context : @ReduxMPServerContext State Task)
  (self : Ref) (S : ReduxMPServerClientContext) (o : Oracle).

Local Abbreviation handler :=
  (processFromClient reducer actionFilter verifySigned atob).

Lemma fanOut_recipients clients S m (msg : ServerToClientMessage State) r x :
  In (r, x) (fanOut clients S m msg) ->
  r ∈ m.*2 /\ x = msg
  /\ exists c, clients !! r = Some c /\ autoClientId c <> autoClientId S.
Proof.
  unfold fanOut. intros Hin. apply in_flat_map in Hin as ([k v] & He & Hin).
  simpl in Hin.
  destruct (clients !! v) as [c|] eqn:Hc; [|destruct Hin].
  destruct (String.eqb_spec (autoClientId c) (autoClientId S));
    [destruct Hin|].
  destruct Hin as [[= <- <-]|[]].
  split; [|split; [reflexivity|eauto]].
  apply list_elem_of_fmap. exists (k, v). split; [reflexivity|].
  apply list_elem_of_In, He.
Qed.

Lemma handler_reaches o clients context self S msg r x :
  clients !! self = Some S ->
  In (r, x) (sent (handler o clients context self msg)) ->
  r = self \/ r ∈ (socketToClient context).*2.
Proof.
  intros Hself. unfold processFromClient. rewrite Hself.
  destruct msg as [lastSeen cid params|actionId actionData].
  - simpl. intros [[= <- _]|[]]. auto.
  - unfold processAction.
    destruct (negb _); [intros []|].
    destruct (invokeFilter _ _ _ _) as [accepted tasks].
    destruct (faultOf _).
    + simpl. intros [[= <- _]|[]]. auto.
    + cbv zeta. cbn [sent]. intros [[= <- _]|Hin]; [auto|].
      apply fanOut_recipients in Hin as (Hr & _). auto.
Qed.

(** X15: whatever message the handler is given, it hands messages only
    to the sender and to clients attached to the context whose
    [autoClientId] differs from the sender's; what it hands to such a
    client is an [action]. *)
Theorem only_sender_and_attached_are_sent o clients context self S msg r x :
  clients !! self = Some S ->
  In (r, x)
    (sent (processFromClient reducer actionFilter verifySigned atob o clients
             context self msg)) ->
  r = self
  \/ (r ∈ (socketToClient context).*2
      /\ (exists action id, x = ActionMsg action id)
      /\ exists c, clients !! r = Some c
                   /\ autoClientId c <> autoClientId S).
Proof.
  intros Hself. unfold processFromClient. rewrite Hself.
  destruct msg as [lastSeen cid params|actionId actionData].
  - simpl. intros [[= <- _]|[]]. auto.
  - unfold processAction.
    destruct (negb _); [intros []|].
    destruct (invokeFilter _ _ _ _) as [accepted tasks].
    destruct (faultOf _).
    + simpl. intros [[= <- _]|[]]. auto.
    + cbv zeta. cbn [sent]. intros [[= <- _]|Hin]; [auto|].
      apply fanOut_recipients in Hin as (Hr & -> & Hc).
      right. split; [exact Hr|]. split; [eauto|exact Hc].
Qed.

Lemma mapDelete_forgets k r (m : list (Socket * Ref)) :
  NoDup m.*2 -> (k, r) ∈ m -> r ∉ (mapDelete k m).*2.
Proof.
  induction m as [|[k' v'] m IH]; intros Hnodup Hin;
    [by apply elem_of_nil in Hin|].
  rewrite fmap_cons in Hnodup. apply NoDup_cons in Hnodup as [Hv' Hnodup].
  simpl. apply elem_of_cons in Hin as [[= <- <-]|Hin].
  - rewrite Nat.eqb_refl. simpl.
    intros Hr. apply Hv'. clear -Hr.
    induction m as [|[k'' v''] m IH]; simpl in *; [exact Hr|].
    destruct (negb (k =? k'')%nat); simpl in *.
    + apply elem_of_cons in Hr as [->|Hr]; [left|right; auto].
    + right. auto.
  - assert (r <> v').
    { intros ->. apply Hv'. apply list_elem_of_fmap.
      exists (k, v'). auto. }
    destruct (negb (k =? k')%nat); simpl; [|auto].
    apply not_elem_of_cons. auto.
Qed.

(** X16: a session that has been closed is handed nothing more by the
    handler of another session: [close] takes its socket out of
    [socketToClient], and with it the client attached under it. *)
Theorem closed_session_not_sent o clients context self S gone r msg :
  clients !! self = Some S ->
  NoDup (socketToClient context).*2 ->
  (socket gone, r) ∈ socketToClient context ->
  r <> self ->
  sentTo r (sent (handler o clients (close context gone) self msg)) = [].
Proof.
  intros Hself Hnodup Hin Hne.
  pose proof (mapDelete_forgets _ _ _ Hnodup Hin) as Hgone.
  assert (Hnone : forall l : list (@Sent State),
             (forall x, ~ In (r, x) l) -> sentTo r l = []).
  { induction l as [|[r' x'] l IH]; intros Hl; [reflexivity|].
    unfold sentTo in *. cbn [List.filter fst].
    destruct (Nat.eqb_spec r' r) as [->|_].
    - exfalso. apply (Hl x'). left. reflexivity.
    - apply IH. intros x Hx. apply (Hl x). right. exact Hx. }
  apply Hnone. intros x Hx.
  apply (handler_reaches _ _ _ _ S) in Hx; [|exact Hself].
  destruct Hx as [->|Hr]; [congruence|].
  apply Hgone, Hr.
Qed.

Lemma mapSet_holds k v (m : list (Socket * Ref)) : v ∈ (mapSet k v m).*2.
Proof.
  induction m as [|[k' v'] m IH]; simpl; [left|].
  destruct (k =? k')%nat; simpl; [left|right; exact IH].
Qed.

(** X17: a session that [connect] has just attached is handed every
    action accepted afterwards from a session with another
    [autoClientId], once. *)
Theorem attached_session_is_sent o clients context self S autoId key sock
    actionId actionData accepted tasks :
  NoDup (socketToClient context).*2 ->
  (forall r, r ∈ (socketToClient context).*2 -> is_Some (clients !! r)) ->
  clients !! self = Some S ->
  autoClientId S <> autoId ->
  let opened := openSession autoId key sock clients in
  let context2 := attach opened.1 sock context in
  typeof actionData = "object" ->
  invokeFilter actionFilter context2 S actionData = (accepted, tasks) ->
  faultOf (filteredType accepted) = None ->
  sentTo opened.1
    (sent (handler o opened.2 context2 self (Action actionId actionData)))
  = [ActionMsg accepted
       (chooseId actionId (lastAction context) (v7uuid o))].
Proof.
  intros Hnodup Hheld Hself Hauto opened context2 Hty Hfilter Hfault.
  assert (Hnew : opened.1 <> self).
  { intros Heq. apply (is_fresh (dom clients)).
    change (fresh (dom clients)) with opened.1. rewrite Heq.
    apply elem_of_dom. eauto. }
  assert (Hself2 : opened.2 !! self = Some S).
  { unfold opened, openSession. cbn [snd].
    rewrite lookup_insert_ne by exact Hnew. exact Hself. }
  rewrite (HandlerFacts.handler_accepts reducer actionFilter verifySigned
             atob o opened.2 context2 self S actionId actionData accepted
             tasks Hself2 Hty Hfilter Hfault).
  cbv zeta. cbn [sent]. rewrite HandlerFacts.sentTo_cons.
  destruct (Nat.eqb_spec self opened.1) as [Heq|_]; [congruence|].
  apply (HandlerFacts.fanOut_once opened.2 S _ _ opened.1
           (newClientContext autoId key sock)).
  - apply HandlerFacts.mapSet_refs; [exact Hnodup|].
    intros Hin. apply Hheld in Hin.
    apply (is_fresh (dom clients)). apply elem_of_dom. exact Hin.
  - apply mapSet_holds.
  - unfold opened, openSession. cbn [fst snd]. apply lookup_insert_eq.
  - simpl. congruence.
Qed.

(** X18: an action is answered with a fault response exactly when the
    filter's verdict is ["reject"], ["needAuth"] or ["badAuth"], as a
    string or as the [type] of an object; every other verdict, whatever
    its [type], is dispatched to the reducer. *)
Theorem fault_reply_iff_named o clients context self S actionId actionData
    verdict tasks :
  clients !! self = Some S ->
  typeof actionData = "object" ->
  invokeFilter actionFilter context S actionData = (verdict, tasks) ->
  let out := handler o clients context self (Action actionId actionData) in
  ((exists respType, verdictNamed (faultName respType) verdict)
   <-> exists respType id message,
         In (self, Fault respType id message) (sent out))
  /\ ((forall respType, ~ verdictNamed (faultName respType) verdict) ->
      store (context' out) = reducer (store context) verdict).
Proof.
  intros Hself Hty Hfilter out. subst out.
  destruct (faultOf (filteredType verdict)) as [respType|] eqn:Hfault.
  - rewrite (HandlerFacts.handler_faults reducer actionFilter verifySigned
               atob o clients context self S actionId actionData verdict
               tasks respType Hself Hty Hfilter Hfault).
    apply HandlerFacts.fault_verdict in Hfault.
    split; [split|].
    + intros _. eexists _, _, _. left. reflexivity.
    + intros _. eauto.
    + intros Hnone. destruct (Hnone respType Hfault).
  - rewrite (HandlerFacts.handler_accepts reducer actionFilter verifySigned
               atob o clients context self S actionId actionData verdict
               tasks Hself Hty Hfilter Hfault).
    cbv zeta. cbn [sent context' store].
    assert (Hnone : forall respType,
               ~ verdictNamed (faultName respType) verdict).
    { intros respType Hnamed.
      apply HandlerFacts.fault_verdict in Hnamed. congruence. }
    split; [split|reflexivity].
    + intros [respType Hnamed]. destruct (Hnone respType Hnamed).
    + intros (respType & id & message & [Hhead|Hin]).
      * exfalso. injection Hhead as Hreply.
        destruct (negb (strictEq verdict actionData));
          [discriminate|].
        destruct (negb (String.eqb _ _)); discriminate.
      * apply fanOut_recipients in Hin as (_ & Hmsg & _). discriminate.
Qed.

(** X19: a session that presents, in its [connect], a bundle the server
    issued to another session and that verifies, is given the same bundle
    back, and the server holds for it the same generator state as for the
    session the bundle was issued to. *)
Theorem connect_resumes_generator o1 o2 clients context a b A B
    lastSeen1 cid1 params1 lastSeen2 cid2 st cid issued :
  clients !! a = Some A ->
  clients !! b = Some B ->
  a <> b ->
  let out1 := handler o1 clients context a (Connect lastSeen1 cid1 params1) in
  sent out1 = [(a, Connected st cid issued)] ->
  verifySigned issued = true ->
  let out2 :=
    handler o2 (clients' out1) (context' out1) b
      (Connect lastSeen2 cid2 (Some issued)) in
  exists A' B' cid',
    clients' out2 !! a = Some A'
    /\ clients' out2 !! b = Some B'
    /\ sent out2 = [(b, Connected (store context) cid' issued)]
    /\ uuidParams A' = Some issued
    /\ uuidParams B' = Some issued
    /\ uuidGenState B' = uuidGenState A'
    /\ context' out2 = context.
Proof.
  intros Ha Hb Hne out1 Hsent Hverify out2. subst out1 out2.
  unfold processFromClient in Hsent |- *. rewrite Ha in Hsent |- *.
  unfold processConnect in Hsent. cbn [sent] in Hsent.
  injection Hsent as _ _ Hissued.
  unfold processConnect. cbn [clients' context' sent].
  rewrite lookup_insert_ne by exact Hne. rewrite Hb, Hverify.
  cbn [clients' context' sent].
  eexists _, _, _.
  rewrite lookup_insert_ne by congruence.
  rewrite !lookup_insert_eq.
  split; [reflexivity|]. split; [reflexivity|]. split; [reflexivity|].
  cbn [uuidParams uuidGenState default from_option id].
  rewrite Hissued. auto.
Qed.

End WithStore.

Lemma only_sender_and_attached_are_sent_witness :
  sessions !! alice = Some aliceSession
  /\ In (bob, ActionMsg (inc 5) firstId)
       (sent (handle noFilter (Action firstId (inc 5))))
  /\ (bob = alice \/ bob ∈ (socketToClient room).*2).
Proof.
  assert (Hin : In (bob, ActionMsg (inc 5) firstId)
                  (sent (handle noFilter (Action firstId (inc 5)))))
    by (vm_compute; auto).
  split; [exact ScenarioFacts.alice_live|]. split; [exact Hin|].
  destruct (only_sender_and_attached_are_sent counter noFilter
              (fun _ => true) (fun _ => replicate 80 0) oracle sessions room
              alice aliceSession (Action firstId (inc 5)) bob _
              ScenarioFacts.alice_live Hin) as [Heq|(Hattached & _)];
    [left; exact Heq|right; exact Hattached].
Defined.

Lemma closed_session_not_sent_witness :
  sessions !! alice = Some aliceSession
  /\ (socket (session "018e0000-0000-7000-8000-00000000000b" 11%nat), bob)
     ∈ socketToClient room
  /\ sentTo bob
       (sent (processFromClient counter noFilter (fun _ => true)
                (fun _ => replicate 80 0) oracle sessions
                (close room
                   (session "018e0000-0000-7000-8000-00000000000b" 11%nat))
                alice (Action firstId (inc 5))))
     = [].
Proof.
  assert (Hin : (socket (session "018e0000-0000-7000-8000-00000000000b"
                           11%nat), bob) ∈ socketToClient room)
    by (right; left).
  split; [exact ScenarioFacts.alice_live|]. split; [exact Hin|].
  apply (closed_session_not_sent counter noFilter (fun _ => true)
           (fun _ => replicate 80 0) oracle sessions room alice aliceSession
           (session "018e0000-0000-7000-8000-00000000000b" 11%nat) bob
           (Action firstId (inc 5)) ScenarioFacts.alice_live
           ScenarioFacts.room_attached_once Hin).
  discriminate.
Defined.

Lemma attached_session_is_sent_witness :
  let opened :=
    openSession "018e0000-0000-7000-8000-00000000000d" "room/a" 13%nat
      sessions in
  sessions !! alice = Some aliceSession
  /\ sentTo opened.1
       (sent (processFromClient counter noFilter (fun _ => true)
                (fun _ => replicate 80 0) oracle opened.2
                (attach opened.1 13%nat room) alice
                (Action firstId (inc 5))))
     = [ActionMsg (inc 5) firstId].
Proof.
  intros opened. split; [exact ScenarioFacts.alice_live|].
  apply (attached_session_is_sent counter noFilter (fun _ => true)
           (fun _ => replicate 80 0) oracle sessions room alice aliceSession
           "018e0000-0000-7000-8000-00000000000d" "room/a" 13%nat
           firstId (inc 5) (inc 5) []
           ScenarioFacts.room_attached_once).
  - intros r Hr.
    assert (r = alice \/ r = bob \/ r = carol) as [-> | [-> | ->] ]
      by (revert Hr; simpl; rewrite !elem_of_cons, elem_of_nil; tauto);
      vm_compute; eauto.
  - exact ScenarioFacts.alice_live.
  - discriminate.
  - reflexivity.
  - reflexivity.
  - reflexivity.
Defined.

Lemma fault_reply_iff_named_witness :
  sessions !! alice = Some aliceSession
  /\ (exists respType id message,
        In (alice, Fault respType id message)
          (sent (handle rejecting (Action firstId (inc 5))))).
Proof.
  split; [exact ScenarioFacts.alice_live|].
  apply (fault_reply_iff_named counter rejecting (fun _ => true)
           (fun _ => replicate 80 0) oracle sessions room alice aliceSession
           firstId (inc 5) (VString "reject") []
           ScenarioFacts.alice_live eq_refl eq_refl).
  exists rejectAction. left. reflexivity.
Defined.

(** The fault type the filter's interface declares for the third fault,
    ["badAuthh"], is not one of the three: such an object is an action. *)
Example badAuthh_is_dispatched :
  sent (processFromClient counter
          (Some (fun _ _ =>
                   (VObject 9 [("type", VString "badAuthh");
                               ("message", VString "not yours")],
                    [] : list unit)))
          (fun _ => true) (fun _ => replicate 80 0) oracle sessions room alice
          (Action firstId (inc 5)))
  = [ (alice,
       ReplaceAction firstId firstId
         (VObject 9 [("type", VString "badAuthh");
                     ("message", VString "not yours")]));
      (bob,
       ActionMsg (VObject 9 [("type", VString "badAuthh");
                             ("message", VString "not yours")]) firstId);
      (carol,
       ActionMsg (VObject 9 [("type", VString "badAuthh");
                             ("message", VString "not yours")]) firstId) ].
Proof. vm_compute. reflexivity. Qed.

Lemma connect_resumes_generator_witness :
  let out1 := handle noFilter (Connect "" None None) in
  sessions !! alice = Some aliceSession
  /\ exists A' B' cid',
       clients'
         (processFromClient counter noFilter (fun _ => true)
            (fun _ => replicate 80 0) oracle (clients' out1) (context' out1)
            bob (Connect "" None (Some (makeSigned oracle)))) !! alice
       = Some A'
       /\ clients'
            (processFromClient counter noFilter (fun _ => true)
               (fun _ => replicate 80 0) oracle (clients' out1)
               (context' out1) bob
               (Connect "" None (Some (makeSigned oracle)))) !! bob
          = Some B'
       /\ sent
            (processFromClient counter noFilter (fun _ => true)
               (fun _ => replicate 80 0) oracle (clients' out1)
               (context' out1) bob
               (Connect "" None (Some (makeSigned oracle))))
          = [(bob, Connected (store room) cid' (makeSigned oracle))]
       /\ uuidGenState B' = uuidGenState A'.
Proof.
  intros out1. split; [exact ScenarioFacts.alice_live|].
  destruct (connect_resumes_generator counter noFilter (fun _ => true)
              (fun _ => replicate 80 0) oracle oracle sessions room
              alice bob aliceSession
              (session "018e0000-0000-7000-8000-00000000000b" 11%nat)
              "" None None "" None 0
              "018e0000-0000-7000-8000-00000000000a" (makeSigned oracle)
              ScenarioFacts.alice_live)
    as (A' & B' & cid' & Ha & Hb & Hsent & _ & _ & Hgen & _);
    [vm_compute; reflexivity|discriminate|vm_compute; reflexivity
    |reflexivity|].
  exists A', B', cid'. auto.
Defined.

End SessionFacts.

(** ** The order of the identifiers is the order of their texts

    The server compares action identifiers as strings
    ([msg.actionId < context.lastAction]); the identifiers are the texts
    of version-7 UUIDs. *)

Module OrderFacts.
Import Num UUIDv7.

Lemma hexChar_order m n :
  0 <= m < 16 -> 0 <= n < 16 ->
  Ascii.compare (hexChar m) (hexChar n) = (m ?= n).
Proof.
  intros Hm Hn.
  assert (Hall :
    forall m, 0 <= m < Z.of_nat 16 -> forall n, 0 <= n < Z.of_nat 16 ->
      match Ascii.compare (hexChar m) (hexChar n), m ?= n with
      | Eq, Eq | Lt, Lt | Gt, Gt => true
      | _, _ => false
      end = true).
  { intros m' Hm'.
    apply (MintFacts.below_forallb
             (fun n => match Ascii.compare (hexChar m') (hexChar n), m' ?= n
                       with
                       | Eq, Eq | Lt, Lt | Gt, Gt => true
                       | _, _ => false
                       end) 16).
    revert m' Hm'.
    apply (MintFacts.below_forallb
             (fun m =>
                forallb
                  (fun n => match Ascii.compare (hexChar m) (hexChar n), m ?= n
                            with
                            | Eq, Eq | Lt, Lt | Gt, Gt => true
                            | _, _ => false
                            end)
                  (map Z.of_nat (seq 0 16))) 16).
    vm_compute. reflexivity. }
  specialize (Hall m Hm n Hn).
  destruct (Ascii.compare _ _), (m ?= n); (reflexivity || discriminate).
Qed.

Lemma compare_hex m n s t :
  0 <= m < 16 -> 0 <= n < 16 ->
  String.compare (String (hexChar m) s) (String (hexChar n) t)
  = match m ?= n with Eq => String.compare s t | Lt => Lt | Gt => Gt end.
Proof.
  intros Hm Hn. cbn [String.compare]. rewrite hexChar_order by assumption.
  reflexivity.
Qed.

Lemma compare_dash s t :
  String.compare (String "-"%char s) (String "-"%char t) = String.compare s t.
Proof. reflexivity. Qed.

Lemma byte_split z :
  0 <= z < 256 ->
  z = 16 * Z.shiftr z 4 + Z.land z 0xf
  /\ 0 <= Z.shiftr z 4 < 16 /\ 0 <= Z.land z 0xf < 16.
Proof.
  intros Hz. rewrite Z.shiftr_div_pow2 by lia.
  change 0xf with (Z.ones 4). rewrite Z.land_ones by lia.
  change (2 ^ 4) with 16.
  Z.to_euclidean_division_equations. lia.
Qed.

Lemma seqNo_split q :
  0 <= q < 4096 ->
  q = 256 * Z.land (Z.shiftr q 8) 0xf + Z.land q 0xff
  /\ 0 <= Z.land (Z.shiftr q 8) 0xf < 16 /\ 0 <= Z.land q 0xff < 256.
Proof.
  intros Hq. rewrite Z.shiftr_div_pow2 by lia.
  change 0xf with (Z.ones 4). change 0xff with (Z.ones 8).
  rewrite !Z.land_ones by lia.
  change (2 ^ 4) with 16. change (2 ^ 8) with 256.
  Z.to_euclidean_division_equations. lia.
Qed.

Lemma version_high n : 0 <= n < 16 -> Z.shiftr (0x70 + n) 4 = 7.
Proof.
  intros Hn. rewrite Z.shiftr_div_pow2 by lia. change (2 ^ 4) with 16.
  Z.to_euclidean_division_equations. lia.
Qed.

(** The texts of two identifiers compare as their first eight bytes do,
    nibble by nibble. *)
Lemma text_compare a0 a1 a2 a3 a4 a5 a6 a7 arest b0 b1 b2 b3 b4 b5 b6 b7
    brest :
  Forall (fun z => 0 <= z < 256)
    [a0; a1; a2; a3; a4; a5; a6; a7; b0; b1; b2; b3; b4; b5; b6; b7] ->
  length arest = 8%nat -> length brest = 8%nat ->
  ((((((a0 * 256 + a1) * 256 + a2) * 256 + a3) * 256 + a4) * 256 + a5)
     * 256 + a6) * 256 + a7
  < ((((((b0 * 256 + b1) * 256 + b2) * 256 + b3) * 256 + b4) * 256 + b5)
       * 256 + b6) * 256 + b7 ->
  String.ltb
    (uuidBytesToString (a0 :: a1 :: a2 :: a3 :: a4 :: a5 :: a6 :: a7 :: arest))
    (uuidBytesToString (b0 :: b1 :: b2 :: b3 :: b4 :: b5 :: b6 :: b7 :: brest))
  = true.
Proof.
  intros Hbytes Hla Hlb Hlt.
  do 9 (destruct arest as [|? arest]; try discriminate Hla). clear Hla.
  do 9 (destruct brest as [|? brest]; try discriminate Hlb). clear Hlb.
  repeat match goal with
         | H : Forall _ (_ :: _) |- _ => apply Forall_cons in H as [? H]
         end.
  repeat match goal with
         | H : 0 <= ?z < 256 |- _ =>
             let E := fresh "E" in
             destruct (byte_split z H) as (E & ? & ?); clear H;
             rewrite E in Hlt; clear E
         end.
  unfold String.ltb.
  match goal with
  | |- context [String.compare ?s ?t] =>
      let s' := eval cbv [uuidBytesToString flat_map seq app load default
                          lookup list_lookup hexDigit String.concat
                          String.append Nat.eqb orb id] in s in
      let t' := eval cbv [uuidBytesToString flat_map seq app load default
                          lookup list_lookup hexDigit String.concat
                          String.append Nat.eqb orb id] in t in
      change s with s'; change t with t'
  end.
  repeat first
    [ rewrite compare_dash
    | rewrite compare_hex by assumption;
      match goal with
      | |- context [Z.compare ?m ?n] =>
          destruct (Z.compare_spec m n) as [?| |];
          [|reflexivity|exfalso; lia]
      end ].
  exfalso. lia.
Qed.

(** X20: identifiers minted for timestamps below [2^48] and sequence
    numbers below [4096] compare, as strings, the way their (timestamp,
    sequence number) pairs do, whatever the seeds: the one with the later
    timestamp, or the same timestamp and the greater sequence number, is
    the greater text. *)
Theorem later_identifier_greater_text now1 now2 gp1 gp2 ts1 ts2 q1 q2 :
  0 <= ts1 < 2 ^ 48 -> 0 <= ts2 < 2 ^ 48 ->
  0 <= q1 < 4096 -> 0 <= q2 < 4096 ->
  ts1 < ts2 \/ (ts1 = ts2 /\ q1 < q2) ->
  String.ltb (newUUIDv7String now1 gp1 (Some ts1) (Some q1)).1
    (newUUIDv7String now2 gp2 (Some ts2) (Some q2)).1
  = true.
Proof.
  intros Hts1 Hts2 Hq1 Hq2 Horder.
  unfold newUUIDv7String, newUUIDv7Bytes. cbn [fst default from_option id].
  destruct (MintFacts.buildUUID_shape (seed gp1) ts1 q1)
    as (c8 & c9 & c10 & c11 & c12 & c13 & c14 & c15 & _ & ->).
  destruct (MintFacts.buildUUID_shape (seed gp2) ts2 q2)
    as (d8 & d9 & d10 & d11 & d12 & d13 & d14 & d15 & _ & ->).
  pose proof (MintFacts.timestamp_digits ts1 ltac:(lia)) as Hd1.
  pose proof (MintFacts.timestamp_digits ts2 ltac:(lia)) as Hd2.
  rewrite Z.mod_small in Hd1, Hd2 by assumption.
  destruct (seqNo_split q1 Hq1) as (Hs1 & Hhi1 & Hlo1).
  destruct (seqNo_split q2 Hq2) as (Hs2 & Hhi2 & Hlo2).
  apply text_compare; [|reflexivity|reflexivity|lia].
  repeat (apply Forall_cons; split;
          [first [apply MintFacts.tsByte_range|lia]|]).
  constructor.
Qed.

Lemma later_identifier_greater_text_witness :
  String.ltb
    (newUUIDv7String 0 Scenario.genA (Some 1700000000000) (Some 4095)).1
    (newUUIDv7String 0 Scenario.genB (Some 1700000000001) (Some 0)).1
  = true.
Proof.
  apply later_identifier_greater_text; lia.
Defined.

End OrderFacts.

(** ** What a listening session is sent is enough to follow the store *)

Module ReplicaFacts.
Import Num JS UUIDv7 Wire Server.

Section WithStore.

Context {State Task : Type}.
Variable reducer : State -> Value -> State.
Variable actionFilter :
  option (@MPServerActionFilterContext State -> Value -> Value * list Task).
Variable verifySigned : SerializedGenerationParams -> bool.
Variable atob : string -> list Z.

Implicit Types (clients : Clients) (context : @ReduxMPServerContext State Task)
  (self r : Ref) (S R : ReduxMPServerClientContext) (o : Oracle).

Local Abbreviation handler :=
  (processFromClient reducer actionFilter verifySigned atob).
Local Abbreviation follow := (replica reducer).

Lemma handler_keeps_auto o clients context self msg s :
  autoClientId <$> clients' (handler o clients context self msg) !! s
  = autoClientId <$> clients !! s.
Proof.
  unfold processFromClient.
  destruct (clients !! self) as [S|] eqn:Hself; [|reflexivity].
  destruct msg as [lastSeen cid params|actionId actionData].
  - unfold processConnect. cbn [clients'].
    destruct (decide (self = s)) as [->|Hne].
    + rewrite lookup_insert_eq, Hself. reflexivity.
    + rewrite lookup_insert_ne by exact Hne. reflexivity.
  - unfold processAction.
    destruct (negb _); [reflexivity|].
    destruct (invokeFilter _ _ _ _) as [accepted tasks].
    destruct (faultOf _); reflexivity.
Qed.

Lemma handler_keeps_sockets o clients context self msg :
  socketToClient (context' (handler o clients context self msg))
  = socketToClient context.
Proof.
  unfold processFromClient.
  destruct (clients !! self) as [S|]; [|reflexivity].
  destruct msg as [lastSeen cid params|actionId actionData]; [reflexivity|].
  unfold processAction.
  destruct (negb _); [reflexivity|].
  destruct (invokeFilter _ _ _ _) as [accepted tasks].
  destruct (faultOf _); reflexivity.
Qed.

(** One call of the handler, seen from the listener. *)
Lemma handler_followed o clients context self msg r R :
  NoDup (socketToClient context).*2 ->
  r ∈ (socketToClient context).*2 ->
  clients !! r = Some R ->
  others_act clients (autoClientId R) (o, self, msg) ->
  follow (store context)
    (sentTo r (sent (handler o clients context self msg)))
  = store (context' (handler o clients context self msg)).
Proof.
  intros Hnodup Hin Hr Hact. unfold processFromClient.
  destruct (clients !! self) as [S|] eqn:Hself; [|reflexivity].
  destruct msg as [lastSeen cid params|actionId actionData].
  - unfold processConnect. cbn [sent context'].
    rewrite HandlerFacts.sentTo_cons.
    destruct (self =? r)%nat; reflexivity.
  - specialize (Hact S Hself). cbn [fst snd] in Hact.
    assert (Hne : self <> r) by (intros ->; congruence).
    apply Nat.eqb_neq in Hne.
    unfold processAction.
    destruct (negb _); [reflexivity|].
    destruct (invokeFilter _ _ _ _) as [accepted tasks].
    destruct (faultOf _).
    + cbn [sent context' store]. rewrite HandlerFacts.sentTo_cons, Hne.
      reflexivity.
    + cbv zeta. cbn [sent context' store socketToClient].
      rewrite HandlerFacts.sentTo_cons, Hne.
      rewrite (HandlerFacts.fanOut_once clients S _ _ r R Hnodup Hin Hr)
        by congruence.
      reflexivity.
Qed.

Lemma follow_app s (l1 l2 : list (ServerToClientMessage State)) :
  follow s (l1 ++ l2) = follow (follow s l1) l2.
Proof. unfold replica. apply fold_left_app. Qed.

Lemma deliverLog_followed arrivals :
  forall clients context (log : list (@Sent State)) r R s0,
    NoDup (socketToClient context).*2 ->
    r ∈ (socketToClient context).*2 ->
    clients !! r = Some R ->
    Forall (others_act clients (autoClientId R)) arrivals ->
    follow s0 (sentTo r log) = store context ->
    let '(_, context', log') :=
      fold_left
        (fun acc a =>
           let out := handler a.1.1 acc.1.1 acc.1.2 a.1.2 a.2 in
           (clients' out, Server.context' out, (acc.2 ++ sent out)%list))
        arrivals (clients, context, log) in
    follow s0 (sentTo r log') = store context'.
Proof.
  induction arrivals as [|[[o self] msg] arrivals IH];
    intros clients context log r R s0 Hnodup Hin Hr Hall Hlog;
    [exact Hlog|].
  apply Forall_cons in Hall as [Hact Hall].
  cbn [fold_left fst snd].
  set (out := handler o clients context self msg).
  pose proof (handler_keeps_auto o clients context self msg r) as Hauto.
  fold out in Hauto. rewrite Hr in Hauto.
  destruct (clients' out !! r) as [R'|] eqn:Hr'; [|discriminate].
  injection Hauto as Hauto.
  apply (IH (clients' out) (context' out) _ r R' s0).
  - unfold out. rewrite handler_keeps_sockets. exact Hnodup.
  - unfold out. rewrite handler_keeps_sockets. exact Hin.
  - exact Hr'.
  - rewrite Hauto. apply (Forall_impl _ _ _ Hall).
    intros [[o' s'] msg']. unfold others_act. cbn [fst snd].
    destruct msg'; [auto|].
    intros Hothers S HS.
    pose proof (handler_keeps_auto o clients context self msg s') as Hs'.
    fold out in Hs'. rewrite HS in Hs'.
    destruct (clients !! s') as [S0|] eqn:HS0; [|discriminate].
    injection Hs' as Hs'. rewrite Hs'. apply Hothers. reflexivity.
  - rewrite HandlerFacts.sentTo_app, follow_app, Hlog.
    apply (handler_followed o clients context self msg r R); assumption.
Qed.

(** X21: a session that is attached and sends no action of its own can
    follow the store from what it is handed: taking the state of each
    [connected] and applying the action of each [action], in the order
    they were handed to it, gives the state of the server's store,
    whatever the other sessions send and whatever the filter decides. *)
Theorem listener_follows_store clients context arrivals r R :
  NoDup (socketToClient context).*2 ->
  r ∈ (socketToClient context).*2 ->
  clients !! r = Some R ->
  Forall (others_act clients (autoClientId R)) arrivals ->
  let end_ :=
    deliverLog reducer actionFilter verifySigned atob (clients, context)
      arrivals in
  follow (store context) (sentTo r end_.2) = store end_.1.2.
Proof.
  intros Hnodup Hin Hr Hall. unfold deliverLog.
  pose proof (deliverLog_followed arrivals clients context [] r R
                (store context) Hnodup Hin Hr Hall eq_refl) as Hrun.
  destruct (fold_left _ arrivals _) as [[clients1 context1] log1].
  exact Hrun.
Qed.

End WithStore.

Lemma listener_follows_store_witness :
  let arrivals :=
    [ (Scenario.oracle, Scenario.alice,
       Action Scenario.firstId (Scenario.inc 5));
      (Scenario.oracle, Scenario.carol, Connect "" None None);
      (Scenario.oracle, Scenario.bob,
       Action Scenario.staleId (Scenario.inc 6));
      (Scenario.oracle, Scenario.bob, Action Scenario.firstId (VString "inc"))
    ] in
  let end_ :=
    deliverLog Scenario.counter Scenario.noFilter (fun _ => true)
      (fun _ => replicate 80 0) (Scenario.sessions, Scenario.room)
      arrivals in
  replica Scenario.counter (store Scenario.room)
    (sentTo Scenario.carol end_.2)
  = store end_.1.2
  /\ store end_.1.2 = 2.
Proof.
  intros arrivals end_. split; [|reflexivity].
  apply (listener_follows_store Scenario.counter Scenario.noFilter
           (fun _ => true) (fun _ => replicate 80 0) Scenario.sessions
           Scenario.room arrivals Scenario.carol
           (Scenario.session "018e0000-0000-7000-8000-00000000000c" 12%nat)
           ScenarioFacts.room_attached_once).
  - right. right. left.
  - reflexivity.
  - repeat (apply Forall_cons; split;
            [first [exact I
                   |intros S HS; vm_compute in HS; injection HS as <-;
                    discriminate]|]).
    constructor.
Defined.

End ReplicaFacts.
